(** * JobOps: job/task lifecycle, authorization and audit log

    A shallow embedding of the Django models, permission classes, view sets
    and the periodic sweep of the JobOps backend (apps [users] and [ops]).

    The database is an explicit value: each table is a finite map from
    primary key to row, the change log is the list of its rows in the order
    they were written.  Model methods and view actions that read or write
    the database are functions in a state-and-error monad over it; the
    clock ([timezone.now()]) is an explicit argument. *)

From stdpp Require Import base option list gmap strings sorting pretty.
From Stdlib Require Import ZArith Lia Ascii.

Open Scope Z_scope.
#[local] Set Warnings "-clear-no-such-hyp".

(** ** Enumerations ([choices] of the model fields) *)

Module Role.
(** [users.models.User.ROLE_CHOICES] *)
Inductive t := admin | technician | sales_agent.
#[global] Instance eq_dec : EqDecision t.
Proof. solve_decision. Defined.
End Role.

Module JobStatus.
(** [ops.models.Job.STATUS_CHOICES] *)
Inductive t := pending | in_progress | completed | cancelled.
#[global] Instance eq_dec : EqDecision t.
Proof. solve_decision. Defined.
Definition str (s : t) : string :=
  match s with
  | pending => "pending" | in_progress => "in_progress"
  | completed => "completed" | cancelled => "cancelled"
  end.
End JobStatus.

Module Priority.
(** [ops.models.Job.PRIORITY_CHOICES] *)
Inductive t := low | medium | high | urgent.
#[global] Instance eq_dec : EqDecision t.
Proof. solve_decision. Defined.
Definition str (p : t) : string :=
  match p with
  | low => "low" | medium => "medium" | high => "high" | urgent => "urgent"
  end.
End Priority.

Module TaskStatus.
(** [ops.models.JobTask.STATUS_CHOICES] *)
Inductive t := pending | in_progress | completed.
#[global] Instance eq_dec : EqDecision t.
Proof. solve_decision. Defined.
Definition str (s : t) : string :=
  match s with
  | pending => "pending" | in_progress => "in_progress"
  | completed => "completed"
  end.
End TaskStatus.

(** HTTP verbs; [permissions.SAFE_METHODS] is [GET], [HEAD], [OPTIONS]. *)
Module Method.
Inductive t := GET | HEAD | OPTIONS | POST | PUT | PATCH | DELETE.
Definition safe (m : t) : bool :=
  match m with GET | HEAD | OPTIONS => true | _ => false end.
End Method.

#[global] Instance Method_eq_dec : EqDecision Method.t.
Proof. solve_decision. Defined.

(** ** Rows

    Primary keys are the database's auto-increment keys, which start at 1:
    a set key is a [positive], so [not self.pk] holds exactly for [None].
    Datetimes are seconds, dates are day numbers. *)

Definition datetime := Z.
Definition date := Z.
Definition date_of (dt : datetime) : date := dt / 86400.

Module User.
Record t := mk {
  pk : positive;
  username : string;
  role : Role.t;
  is_staff : bool;
  is_active : bool
}.
Definition set_is_staff (b : bool) (u : t) : t :=
  mk (pk u) (username u) (role u) b (is_active u).
Definition set_role (r : Role.t) (u : t) : t :=
  mk (pk u) (username u) r (is_staff u) (is_active u).
End User.

Module Equipment.
Record t := mk {
  name : string;
  serial_number : string;
  is_active : bool
}.
End Equipment.

Module Job.
Record t := mk {
  pk : option positive;
  title : string;
  description : string;
  client_name : string;
  created_by : option positive;
  assigned_to : option positive;
  status : JobStatus.t;
  priority : Priority.t;
  scheduled_date : date;
  overdue : bool;
  created_at : datetime;
  updated_at : datetime
}.
Definition set_pk (k : option positive) (j : t) : t :=
  mk k (title j) (description j) (client_name j) (created_by j)
     (assigned_to j) (status j) (priority j) (scheduled_date j)
     (overdue j) (created_at j) (updated_at j).
Definition set_status (s : JobStatus.t) (j : t) : t :=
  mk (pk j) (title j) (description j) (client_name j) (created_by j)
     (assigned_to j) s (priority j) (scheduled_date j)
     (overdue j) (created_at j) (updated_at j).
Definition set_overdue (b : bool) (j : t) : t :=
  mk (pk j) (title j) (description j) (client_name j) (created_by j)
     (assigned_to j) (status j) (priority j) (scheduled_date j)
     b (created_at j) (updated_at j).
Definition set_created_at (c : datetime) (j : t) : t :=
  mk (pk j) (title j) (description j) (client_name j) (created_by j)
     (assigned_to j) (status j) (priority j) (scheduled_date j)
     (overdue j) c (updated_at j).
Definition set_updated_at (u : datetime) (j : t) : t :=
  mk (pk j) (title j) (description j) (client_name j) (created_by j)
     (assigned_to j) (status j) (priority j) (scheduled_date j)
     (overdue j) (created_at j) u.
End Job.

Module JobTask.
Record t := mk {
  pk : option positive;
  job : positive;
  title : string;
  description : string;
  status : TaskStatus.t;
  order : Z;
  required_equipment : list positive;
  completed_at : option datetime;
  created_at : datetime;
  updated_at : datetime
}.
Definition set_pk (k : option positive) (x : t) : t :=
  mk k (job x) (title x) (description x) (status x) (order x)
     (required_equipment x) (completed_at x) (created_at x) (updated_at x).
Definition set_completed_at (c : option datetime) (x : t) : t :=
  mk (pk x) (job x) (title x) (description x) (status x) (order x)
     (required_equipment x) c (created_at x) (updated_at x).
Definition set_created_at (c : datetime) (x : t) : t :=
  mk (pk x) (job x) (title x) (description x) (status x) (order x)
     (required_equipment x) (completed_at x) c (updated_at x).
Definition set_updated_at (u : datetime) (x : t) : t :=
  mk (pk x) (job x) (title x) (description x) (status x) (order x)
     (required_equipment x) (completed_at x) (created_at x) u.
End JobTask.

(** The JSON payload of a change-log row ([changes = models.JSONField]);
    objects keep the insertion order of the Python dict. *)
#[local] Unset Elimination Schemes.
Inductive json :=
| JNull
| JStr (s : string)
| JInt (n : Z)
| JObj (fields : list (string * json)).
#[local] Set Elimination Schemes.

Module JobChangeLog.
Record t := mk {
  job : positive;
  user : option positive;
  action : string;
  changes : json;
  timestamp : datetime
}.
End JobChangeLog.

(** ** The database *)

Record DB := mkDB {
  users : gmap positive User.t;
  equipment : gmap positive Equipment.t;
  jobs : gmap positive Job.t;
  job_tasks : gmap positive JobTask.t;
  job_change_logs : list JobChangeLog.t
}.

Definition with_users (m : gmap positive User.t) (db : DB) : DB :=
  mkDB m (equipment db) (jobs db) (job_tasks db) (job_change_logs db).
Definition with_jobs (m : gmap positive Job.t) (db : DB) : DB :=
  mkDB (users db) (equipment db) m (job_tasks db) (job_change_logs db).
Definition with_job_tasks (m : gmap positive JobTask.t) (db : DB) : DB :=
  mkDB (users db) (equipment db) (jobs db) m (job_change_logs db).
Definition with_job_change_logs (l : list JobChangeLog.t) (db : DB) : DB :=
  mkDB (users db) (equipment db) (jobs db) (job_tasks db) l.

(** The key the database gives the next inserted row of a table: 1 in an
    empty table, else the key after the largest one. *)
Definition fresh_pk {A} (m : gmap positive A) : positive :=
  match (map_to_list m).*1 with
  | [] => 1%positive
  | keys => Pos.succ (foldr Pos.max 1%positive keys)
  end.

(** Loading rows: the instance's [pk] is the row's key. *)
Definition Job_rows (db : DB) : list Job.t :=
  (λ kv, Job.set_pk (Some kv.1) kv.2) <$> map_to_list (jobs db).
Definition JobTask_rows (db : DB) : list JobTask.t :=
  (λ kv, JobTask.set_pk (Some kv.1) kv.2) <$> map_to_list (job_tasks db).
Definition Job_get (k : positive) (db : DB) : option Job.t :=
  Job.set_pk (Some k) <$> jobs db !! k.
Definition JobTask_get (k : positive) (db : DB) : option JobTask.t :=
  JobTask.set_pk (Some k) <$> job_tasks db !! k.

(** ** Errors and the state-and-error monad *)

Inductive error :=
| Http404                               (* [get_object]: not in the queryset *)
| PermissionDenied                      (* a permission class refused *)
| BadRequest (key detail : string)      (* HTTP 400 with payload [{key: detail}] *)
| FieldErrors (errors : list (string * list string))
                                        (* HTTP 400 with the messages of each
                                           invalid field or query parameter *)
| ModelValidationError (messages : list string)
                                        (* [django.core.exceptions.ValidationError] *)
| ValueError (msg : string).            (* an unhandled Python exception *)

Inductive result (A : Type) :=
| Ok (a : A)
| Err (e : error).
Arguments Ok {A} a.
Arguments Err {A} e.

(** A computation returns its result together with the database it leaves:
    after an error the database is the one at the point of failure. *)
Definition M (A : Type) : Type := DB → result A * DB.

Definition ret {A} (a : A) : M A := λ db, (Ok a, db).
Definition raise {A} (e : error) : M A := λ db, (Err e, db).
Definition bind {A B} (m : M A) (k : A → M B) : M B :=
  λ db, match m db with
        | (Ok a, db') => k a db'
        | (Err e, db') => (Err e, db')
        end.
Definition get_db : M DB := λ db, (Ok db, db).
Definition put_db (db' : DB) : M unit := λ _, (Ok tt, db').
Definition lift {A} (r : result A) : M A := λ db, (r, db).
Definition check (b : bool) (e : error) : M unit :=
  λ db, if b then (Ok tt, db) else (Err e, db).

#[global] Instance M_ret : MRet M := @ret.
#[global] Instance M_bind : MBind M := λ A B k m, bind m k.

Definition incomplete_msg : string :=
  "Cannot complete job. All tasks must be completed first.".

(** ** Strings

    A character of a string is its code point, below 256. *)

(** Python's [str.isspace] on one character. *)
Definition isspace (c : ascii) : bool :=
  let n := N_of_ascii c in
  ((9 <=? n) && (n <=? 13) || (28 <=? n) && (n <=? 32)
   || (n =? 133) || (n =? 160))%N.

Fixpoint lstrip (s : string) : string :=
  match s with
  | EmptyString => EmptyString
  | String c s' => if isspace c then lstrip s' else s
  end.

Fixpoint rstrip (s : string) : string :=
  match s with
  | EmptyString => EmptyString
  | String c s' =>
      match rstrip s' with
      | EmptyString => if isspace c then EmptyString else String c EmptyString
      | r => String c r
      end
  end.

(** [value.strip()] *)
Definition strip (s : string) : string := rstrip (lstrip s).

(** [value.lower()]: the capital letters [A] to [Z] and, above 127, the
    accented capitals 192 to 222 without the sign 215 have a small
    letter, 32 further on. *)
Definition lower_char (c : ascii) : ascii :=
  let n := N_of_ascii c in
  if ((65 <=? n) && (n <=? 90)
      || (192 <=? n) && (n <=? 222) && negb (n =? 215))%N
  then ascii_of_N (n + 32)
  else c.

Fixpoint lower (s : string) : string :=
  match s with
  | EmptyString => EmptyString
  | String c s' => String (lower_char c) (lower s')
  end.

(** ** Requests *)

Module Request.
(** [request.user] is an authenticated user throughout. The query
    parameters are kept per name: [status], [priority] and [overdue] as
    the text sent, ids and dates parsed; [ordering] is split at its commas
    and each term stripped. *)
Record t := mk {
  user : User.t;
  method : Method.t;
  status : option string;
  priority : option string;
  assigned_to : option positive;
  overdue : option string;
  start_date : option date;
  end_date : option date;
  job : option positive;
  ordering : list string
}.
(** A request with no query parameter. *)
Definition plain (u : User.t) (m : Method.t) : t :=
  mk u m None None None None None None None [].
End Request.

(** ** [users.models.User.save] *)

(** The assignment [save] makes before the row is written. *)
Definition User_pre_save (self : User.t) : User.t :=
  if decide (User.role self = Role.admin)
  then User.set_is_staff true self
  else self.

Definition User_save (self : User.t) : M User.t :=
  let self := User_pre_save self in
  db ← get_db;
  put_db (with_users (<[User.pk self := self]> (users db)) db);;
  mret self.

(** ** [ops.permissions] *)

(** The objects a permission class is asked about. A [Job] has the
    attribute [assigned_to]; a [JobTask] has none but has [job], the owning
    job's row. *)
Inductive target :=
| OfJob (j : Job.t)
| OfTask (t : JobTask.t) (owner : Job.t).

(** [fk == request.user] on model instances compares primary keys; a null
    foreign key equals no user. *)
Definition is_user (fk : option positive) (u : User.t) : bool :=
  bool_decide (fk = Some (User.pk u)).

Module CanCreateJob.
Definition has_permission (request : Request.t) (action : string) : bool :=
  if Method.safe (Request.method request) then true
  else match Request.method request with
       | Method.POST =>
           if bool_decide (action = "create")
           then match User.role (Request.user request) with
                | Role.admin | Role.sales_agent => true
                | Role.technician => false
                end
           else true
       | _ => true
       end.
End CanCreateJob.

Module CanUpdateJobProgress.
Definition has_permission (request : Request.t) : bool := true.

Definition has_object_permission (request : Request.t) (obj : target) : bool :=
  let user := Request.user request in
  if Method.safe (Request.method request) then true
  else if bool_decide (User.role user = Role.admin) then true
  else match obj with
       | OfJob j =>
           match User.role user with
           | Role.technician => is_user (Job.assigned_to j) user
           | Role.sales_agent => is_user (Job.created_by j) user
           | Role.admin => false
           end
       | OfTask _ owner =>
           match User.role user with
           | Role.technician => is_user (Job.assigned_to owner) user
           | Role.sales_agent => is_user (Job.created_by owner) user
           | Role.admin => false
           end
       end.
End CanUpdateJobProgress.

(** ** [ops.models.Job] *)

Definition task_is_open (t : JobTask.t) : bool :=
  match JobTask.status t with
  | TaskStatus.pending | TaskStatus.in_progress => true
  | TaskStatus.completed => false
  end.

(** [self.tasks]: the rows of [job_tasks] whose [job] is this key. *)
Definition tasks_of (k : positive) (db : DB) : list JobTask.t :=
  List.filter (λ t, bool_decide (JobTask.job t = k)) (JobTask_rows db).

Definition can_complete (self : Job.t) (db : DB) : bool :=
  match Job.pk self with
  | None => true
  | Some k => negb (existsb task_is_open (tasks_of k db))
  end.

Definition clean (self : Job.t) (db : DB) : result unit :=
  if bool_decide (Job.status self = JobStatus.completed)
     && negb (can_complete self db)
  then Err (ModelValidationError [incomplete_msg])
  else Ok tt.

(** [super().save()]: insert under a fresh key when [pk] is unset, else
    write the row under its key; [auto_now] and [auto_now_add] set the time
    stamps. *)
Definition Job_write (now : datetime) (self : Job.t) : M Job.t := λ db,
  match Job.pk self with
  | Some k =>
      let self := Job.set_updated_at now self in
      (Ok self, with_jobs (<[k := self]> (jobs db)) db)
  | None =>
      let k := fresh_pk (jobs db) in
      let self := Job.set_pk (Some k)
                    (Job.set_created_at now (Job.set_updated_at now self)) in
      (Ok self, with_jobs (<[k := self]> (jobs db)) db)
  end.

(** ** [ops.models.JobTask.save] *)

(** The assignments [save] makes before the row is written; a datetime is
    always truthy, so [not self.completed_at] means it is [None]. *)
Definition JobTask_pre_save (now : datetime) (self : JobTask.t) : JobTask.t :=
  if bool_decide (JobTask.status self = TaskStatus.completed)
     && bool_decide (JobTask.completed_at self = None)
  then JobTask.set_completed_at (Some now) self
  else if bool_decide (JobTask.status self ≠ TaskStatus.completed)
          && bool_decide (JobTask.completed_at self ≠ None)
  then JobTask.set_completed_at None self
  else self.

Definition JobTask_write (now : datetime) (self : JobTask.t) : M JobTask.t := λ db,
  match JobTask.pk self with
  | Some k =>
      let self := JobTask.set_updated_at now self in
      (Ok self, with_job_tasks (<[k := self]> (job_tasks db)) db)
  | None =>
      let k := fresh_pk (job_tasks db) in
      let self := JobTask.set_pk (Some k)
                    (JobTask.set_created_at now (JobTask.set_updated_at now self)) in
      (Ok self, with_job_tasks (<[k := self]> (job_tasks db)) db)
  end.

Definition JobTask_save (now : datetime) (self : JobTask.t) : M JobTask.t :=
  JobTask_write now (JobTask_pre_save now self).

(** [JobChangeLog.objects.create(...)]; [timestamp] is [auto_now_add]. *)
Definition JobChangeLog_create (now : datetime) (job : positive)
    (user : User.t) (action : string) (changes : json) : M unit := λ db,
  (Ok tt,
   with_job_change_logs
     (job_change_logs db ++
      [JobChangeLog.mk job (Some (User.pk user)) action changes now]) db).

(** ** Querysets *)

(** [if param: queryset = queryset.filter(...)] for a parsed parameter. *)
Definition filter_by {A B} (param : option B) (p : B → A → bool)
    (qs : list A) : list A :=
  match param with
  | Some b => List.filter (p b) qs
  | None => qs
  end.

(** The same for a textual parameter, which is ignored when empty. *)
Definition filter_by_str {A} (param : option string) (p : string → A → bool)
    (qs : list A) : list A :=
  match param with
  | Some s => if bool_decide (s = "") then qs else List.filter (p s) qs
  | None => qs
  end.

(** ** [DjangoFilterBackend]

    The backend builds a filter set from [filterset_fields]. A field with
    choices takes one of its choices, a foreign key a key of the related
    rows that the field's [limit_choices_to] allows, a boolean field the
    texts read by [BooleanWidget]. An empty value is no filter; an invalid
    one makes the backend answer 400 with the messages per parameter. The
    filters run on the queryset that [get_queryset] returns. *)

Definition invalid_choice (value : string) : string :=
  "Select a valid choice. " +:+ value
  +:+ " is not one of the available choices.".

Definition invalid_model_choice : string :=
  "Select a valid choice. That choice is not one of the available choices.".

(** A [ChoiceFilter] over the stored values [choices]. *)
Definition ChoiceFilter_errors (name : string) (choices : list string)
    (param : option string) : list (string * list string) :=
  match param with
  | Some value =>
      if bool_decide (value = "") || bool_decide (value ∈ choices) then []
      else [(name, [invalid_choice value])]
  | None => []
  end.

(** A [ModelChoiceFilter] whose queryset holds the keys that satisfy
    [allowed]. *)
Definition ModelChoiceFilter_errors (name : string) (allowed : positive → bool)
    (param : option positive) : list (string * list string) :=
  match param with
  | Some k => if allowed k then [] else [(name, [invalid_model_choice])]
  | None => []
  end.

(** [BooleanWidget.value_from_datadict] *)
Definition BooleanWidget (value : string) : option bool :=
  let value := lower value in
  if bool_decide (value = "1") || bool_decide (value = "true") then Some true
  else if bool_decide (value = "0") || bool_decide (value = "false")
  then Some false
  else None.

(** ** Ordering of task querysets

    An ordering term is a field name, with a leading [-] for descending. *)

Definition JobTask_field (f : string) (t : JobTask.t) : option Z :=
  if bool_decide (f = "order") then Some (JobTask.order t)
  else if bool_decide (f = "created_at") then Some (JobTask.created_at t)
  else None.

Definition field_cmp (f : string) (a b : JobTask.t) : comparison :=
  match JobTask_field f a, JobTask_field f b with
  | Some x, Some y => x ?= y
  | _, _ => Eq
  end.

Definition term_cmp (term : string) (a b : JobTask.t) : comparison :=
  match term with
  | String "-"%char f => CompOpp (field_cmp f a b)
  | f => field_cmp f a b
  end.

Fixpoint terms_cmp (terms : list string) (a b : JobTask.t) : comparison :=
  match terms with
  | [] => Eq
  | t :: ts =>
      match term_cmp t a b with
      | Eq => terms_cmp ts a b
      | c => c
      end
  end.

Definition terms_le (terms : list string) (a b : JobTask.t) : Prop :=
  terms_cmp terms a b ≠ Gt.

#[global] Instance terms_le_dec terms a b : Decision (terms_le terms a b).
Proof. unfold terms_le. apply _. Defined.

(** [queryset.order_by] on the given terms: rows that compare equal on every term come
    in whatever order the store yields them. *)
Definition order_by (terms : list string) (qs : list JobTask.t) : list JobTask.t :=
  merge_sort (terms_le terms) qs.



(** ** [ops.views.JobTaskViewSet] *)

Module JobTaskViewSet.
Definition ordering_fields : list string := ["order"; "created_at"].
Definition ordering : list string := ["order"].

(** [OrderingFilter]: the requested terms that name a field of
    [ordering_fields], or [ordering] when none is left. *)
Definition term_valid (term : string) : bool :=
  match term with
  | String "-"%char f => bool_decide (f ∈ ordering_fields)
  | f => bool_decide (f ∈ ordering_fields)
  end.

Definition get_ordering (request : Request.t) : list string :=
  match List.filter term_valid (Request.ordering request) with
  | [] => ordering
  | terms => terms
  end.

(** [select_related('job')] joins each task to its job. *)
Definition owner (t : JobTask.t) (db : DB) : option Job.t :=
  Job_get (JobTask.job t) db.

Definition get_queryset (request : Request.t) (db : DB) : list JobTask.t :=
  let queryset :=
    List.filter (λ t, bool_decide (is_Some (owner t db))) (JobTask_rows db) in
  let queryset :=
    filter_by (Request.job request)
      (λ k t, bool_decide (JobTask.job t = k)) queryset in
  let queryset :=
    filter_by_str (Request.status request)
      (λ s t, bool_decide (TaskStatus.str (JobTask.status t) = s)) queryset in
  match User.role (Request.user request) with
  | Role.technician =>
      List.filter
        (λ t, match owner t db with
              | Some j => is_user (Job.assigned_to j) (Request.user request)
              | None => false
              end) queryset
  | _ => queryset
  end.

(** [filterset_fields = ['job', 'status']]: what the filter set finds
    wrong with the query parameters. *)
Definition filterset_errors (request : Request.t) (db : DB)
    : list (string * list string) :=
  ModelChoiceFilter_errors "job"
    (λ k, bool_decide (is_Some (jobs db !! k))) (Request.job request)
  ++ ChoiceFilter_errors "status"
       (TaskStatus.str <$> [TaskStatus.pending; TaskStatus.in_progress;
                            TaskStatus.completed])
       (Request.status request).

(** [filter_queryset(get_queryset())]: [DjangoFilterBackend], then
    [OrderingFilter]. *)
Definition filter_queryset (request : Request.t) (db : DB)
    : result (list JobTask.t) :=
  match filterset_errors request db with
  | [] =>
      let queryset := get_queryset request db in
      let queryset :=
        filter_by (Request.job request)
          (λ k t, bool_decide (JobTask.job t = k)) queryset in
      let queryset :=
        filter_by_str (Request.status request)
          (λ s t, bool_decide (TaskStatus.str (JobTask.status t) = s))
          queryset in
      Ok (order_by (get_ordering request) queryset)
  | errors => Err (FieldErrors errors)
  end.

(** The list action: the filtered queryset, cut to a page by the
    paginator that the project's settings configure, [paginate_queryset]. *)
Definition list
    (paginate_queryset : Request.t → list JobTask.t → result (list JobTask.t))
    (request : Request.t) (db : DB) : result (list JobTask.t) :=
  match filter_queryset request db with
  | Ok queryset => paginate_queryset request queryset
  | Err e => Err e
  end.

Definition get_object (request : Request.t) (pk : positive) : M JobTask.t :=
  λ db,
  match filter_queryset request db with
  | Err e => (Err e, db)
  | Ok queryset =>
      match List.find (λ t, bool_decide (JobTask.pk t = Some pk)) queryset with
      | None => (Err Http404, db)
      | Some t =>
          match owner t db with
          | None => (Err Http404, db)
          | Some j =>
              if CanUpdateJobProgress.has_object_permission request (OfTask t j)
              then (Ok t, db)
              else (Err PermissionDenied, db)
          end
      end
  end.
End JobTaskViewSet.

(** ** [ops.serializers.JobTaskSerializer] and the task update action *)

Module TaskPatch.
(** The writable fields of [JobTaskSerializer], each present or not in
    the request body. *)
Record t := mk {
  job : option positive;
  title : option string;
  description : option string;
  status : option TaskStatus.t;
  order : option Z;
  required_equipment_ids : option (list positive)
}.
Definition only_status (s : TaskStatus.t) : t :=
  mk None None None (Some s) None None.
End TaskPatch.

Module JobTaskSerializer.
(** The generated [order] field carries the validators of the model's
    [PositiveIntegerField]: its minimum, 0, is checked before
    [validate_order] is called, which therefore never sees a negative
    value. (The maximum of the field is the one of the database backend
    and is not checked here.) *)
Definition order_run_validation (value : Z) : result Z :=
  if bool_decide (value < 0)
  then Err (BadRequest "order"
              "Ensure this value is greater than or equal to 0.")
  else Ok value.

Definition validate_order (value : Z) : result Z :=
  if bool_decide (value < 0)
  then Err (BadRequest "order" "Order must be a positive number.")
  else Ok value.

(** [required_equipment_ids] takes keys of
    [Equipment.objects.filter(is_active=True)]. *)
Definition equipment_valid (ids : list positive) (db : DB) : bool :=
  forallb (λ k, match equipment db !! k with
                | Some e => Equipment.is_active e
                | None => false
                end) ids.

Definition is_valid (data : TaskPatch.t) : M TaskPatch.t :=
  db ← get_db;
  check (match TaskPatch.job data with
         | Some k => bool_decide (is_Some (jobs db !! k))
         | None => true
         end)
        (BadRequest "job" "Invalid pk - object does not exist.");;
  from_option (λ v, v ← lift (order_run_validation v); lift (validate_order v))
    (mret 0) (TaskPatch.order data);;
  check (equipment_valid
           (default [] (TaskPatch.required_equipment_ids data)) db)
        (BadRequest "required_equipment_ids"
           "Invalid pk - object does not exist.");;
  mret data.

(** [ModelSerializer.update]: [setattr] for each validated field. *)
Definition update (instance : JobTask.t) (attrs : TaskPatch.t) : JobTask.t :=
  JobTask.mk
    (JobTask.pk instance)
    (default (JobTask.job instance) (TaskPatch.job attrs))
    (default (JobTask.title instance) (TaskPatch.title attrs))
    (default (JobTask.description instance) (TaskPatch.description attrs))
    (default (JobTask.status instance) (TaskPatch.status attrs))
    (default (JobTask.order instance) (TaskPatch.order attrs))
    (default (JobTask.required_equipment instance)
             (TaskPatch.required_equipment_ids attrs))
    (JobTask.completed_at instance)
    (JobTask.created_at instance)
    (JobTask.updated_at instance).

(** [serializer.save()] on an existing instance. *)
Definition save (now : datetime) (instance : JobTask.t) (attrs : TaskPatch.t)
    : M JobTask.t :=
  JobTask_save now (update instance attrs).
End JobTaskSerializer.

Definition task_updated_changes (task : JobTask.t) (old_status : TaskStatus.t)
    : json :=
  JObj [("task_id", match JobTask.pk task with
                    | Some k => JInt (Z.pos k)
                    | None => JNull
                    end);
        ("task_title", JStr (JobTask.title task));
        ("old_status", JStr (TaskStatus.str old_status));
        ("new_status", JStr (TaskStatus.str (JobTask.status task)))].

Definition JobTaskViewSet_perform_update (now : datetime) (request : Request.t)
    (pk : positive) (instance : JobTask.t) (attrs : TaskPatch.t) : M JobTask.t :=
  old ← JobTaskViewSet.get_object request pk;
  let old_status := JobTask.status old in
  task ← JobTaskSerializer.save now instance attrs;
  (if bool_decide (old_status ≠ JobTask.status task)
   then JobChangeLog_create now (JobTask.job task) (Request.user request)
          "task_updated" (task_updated_changes task old_status)
   else mret tt);;
  mret task.

(** [UpdateModelMixin.update] for tasks: fetch, validate, [perform_update]. *)
Definition JobTaskViewSet_update (now : datetime) (request : Request.t)
    (pk : positive) (data : TaskPatch.t) : M JobTask.t :=
  instance ← JobTaskViewSet.get_object request pk;
  attrs ← JobTaskSerializer.is_valid data;
  JobTaskViewSet_perform_update now request pk instance attrs.

(** ** [ops.serializers.JobUpdateSerializer] *)

Module JobPatch.
(** The writable fields of [JobUpdateSerializer]; [assigned_to_id] may be
    present and null. *)
Record t := mk {
  title : option string;
  description : option string;
  client_name : option string;
  assigned_to_id : option (option positive);
  status : option JobStatus.t;
  priority : option Priority.t;
  scheduled_date : option date
}.
Definition only_status (s : JobStatus.t) : t :=
  mk None None None None (Some s) None None.
End JobPatch.

(** ** Serializer fields

    What [run_validation] of a field makes of the value sent: the validated
    value, or the messages of what is wrong with it. *)

Inductive validated (A : Type) :=
| Valid (a : A)
| Invalid (messages : list string).
Arguments Valid {A} a.
Arguments Invalid {A} messages.

Fixpoint has_null_character (s : string) : bool :=
  match s with
  | EmptyString => false
  | String c s' => (N_of_ascii c =? 0)%N || has_null_character s'
  end.

(** [CharField], as a model serializer builds it from a [CharField] or
    [TextField] of the model: white space is trimmed, a blank value is
    refused, then the validators run: the maximal length, when the model
    field has one, and the ban on null characters. *)
Definition CharField_run_validation (max_length : option nat) (data : string)
    : validated string :=
  if bool_decide (data = "") || bool_decide (strip data = "")
  then Invalid ["This field may not be blank."]
  else
    let value := strip data in
    let messages :=
      match max_length with
      | Some n =>
          if bool_decide (n < String.length value)%nat
          then ["Ensure this field has no more than " +:+ pretty n
                +:+ " characters."]
          else []
      | None => []
      end
      ++ (if has_null_character value
          then ["Null characters are not allowed."] else []) in
    match messages with
    | [] => Valid value
    | _ => Invalid messages
    end.

(** The message of a [PrimaryKeyRelatedField] for a key that its queryset
    does not hold; the key is shown between double quotes. *)
Definition does_not_exist (k : positive) : string :=
  let quote := String (ascii_of_nat 34) EmptyString in
  "Invalid pk " +:+ quote +:+ pretty (Pos.to_nat k) +:+ quote
  +:+ " - object does not exist.".

(** One field in [Serializer.to_internal_value]: a field that was not sent
    is skipped, unless it is required and the update is not partial; a
    field that was sent goes through [run_validation]. The result is the
    validated value, if any, and the entry for the dict of errors. *)
Definition run_field {A B} (partial required : bool) (name : string)
    (data : option A) (run_validation : A → validated B)
    : option B * list (string * list string) :=
  match data with
  | None =>
      (None,
       if required && negb partial
       then [(name, ["This field is required."])] else [])
  | Some value =>
      match run_validation value with
      | Valid b => (Some b, [])
      | Invalid messages => (None, [(name, messages)])
      end
  end.

Module JobUpdateSerializer.
(** [assigned_to_id] takes a key of
    [User.objects.filter(role='technician', is_active=True)] or null. *)
Definition assigned_to_id_valid (v : option (option positive)) (db : DB) : bool :=
  match v with
  | Some (Some u) =>
      match users db !! u with
      | Some usr =>
          bool_decide (User.role usr = Role.technician) && User.is_active usr
      | None => false
      end
  | _ => true
  end.

Definition assigned_to_id_run_validation (db : DB) (data : option positive)
    : validated (option positive) :=
  match data with
  | None => Valid None
  | Some u =>
      if assigned_to_id_valid (Some (Some u)) db then Valid (Some u)
      else Invalid [does_not_exist u]
  end.

(** [to_internal_value]: every field of [Meta.fields] in turn; [title],
    [description], [client_name] and [scheduled_date] have no default in
    the model and are required, [status] and [priority] have one. The
    errors of all fields are raised together. *)
Definition to_internal_value (partial : bool) (data : JobPatch.t) (db : DB)
    : result JobPatch.t :=
  let '(title, e1) :=
    run_field partial true "title" (JobPatch.title data)
      (CharField_run_validation (Some 255%nat)) in
  let '(description, e2) :=
    run_field partial true "description" (JobPatch.description data)
      (CharField_run_validation None) in
  let '(client_name, e3) :=
    run_field partial true "client_name" (JobPatch.client_name data)
      (CharField_run_validation (Some 200%nat)) in
  let '(assigned_to_id, e4) :=
    run_field partial false "assigned_to_id" (JobPatch.assigned_to_id data)
      (assigned_to_id_run_validation db) in
  let '(status, e5) :=
    run_field partial false "status" (JobPatch.status data) Valid in
  let '(priority, e6) :=
    run_field partial false "priority" (JobPatch.priority data) Valid in
  let '(scheduled_date, e7) :=
    run_field partial true "scheduled_date" (JobPatch.scheduled_date data)
      Valid in
  match e1 ++ e2 ++ e3 ++ e4 ++ e5 ++ e6 ++ e7 with
  | [] =>
      Ok (JobPatch.mk title description client_name assigned_to_id status
            priority scheduled_date)
  | errors => Err (FieldErrors errors)
  end.

Definition validate (instance : Job.t) (attrs : JobPatch.t) : M JobPatch.t :=
  db ← get_db;
  let new_status := default (Job.status instance) (JobPatch.status attrs) in
  if bool_decide (new_status = JobStatus.completed)
     && negb (can_complete instance db)
  then raise (BadRequest "status" incomplete_msg)
  else mret attrs.

(** [is_valid(raise_exception=True)]: the fields, then [validate]. *)
Definition is_valid (partial : bool) (instance : Job.t) (data : JobPatch.t)
    : M JobPatch.t :=
  db ← get_db;
  attrs ← lift (to_internal_value partial data db);
  validate instance attrs.

(** [ModelSerializer.update]: [setattr] for each validated field. *)
Definition update (instance : Job.t) (attrs : JobPatch.t) : Job.t :=
  Job.mk
    (Job.pk instance)
    (default (Job.title instance) (JobPatch.title attrs))
    (default (Job.description instance) (JobPatch.description attrs))
    (default (Job.client_name instance) (JobPatch.client_name attrs))
    (Job.created_by instance)
    (default (Job.assigned_to instance) (JobPatch.assigned_to_id attrs))
    (default (Job.status instance) (JobPatch.status attrs))
    (default (Job.priority instance) (JobPatch.priority attrs))
    (default (Job.scheduled_date instance) (JobPatch.scheduled_date attrs))
    (Job.overdue instance)
    (Job.created_at instance)
    (Job.updated_at instance).
End JobUpdateSerializer.

(** ** [ops.views.JobViewSet] *)

(** [partial_update], the PATCH route, calls [update] with
    [partial=True]. *)
Definition partial (request : Request.t) : bool :=
  bool_decide (Request.method request = Method.PATCH).

Definition JobViewSet_get_queryset (request : Request.t) (db : DB) : list Job.t :=
  let user := Request.user request in
  let queryset := Job_rows db in
  let queryset :=
    match User.role user with
    | Role.technician =>
        List.filter (λ j, is_user (Job.assigned_to j) user) queryset
    | Role.sales_agent =>
        List.filter (λ j, is_user (Job.created_by j) user) queryset
    | Role.admin => queryset
    end in
  let queryset :=
    filter_by_str (Request.status request)
      (λ s j, bool_decide (JobStatus.str (Job.status j) = s)) queryset in
  let queryset :=
    filter_by_str (Request.priority request)
      (λ p j, bool_decide (Priority.str (Job.priority j) = p)) queryset in
  let queryset :=
    filter_by (Request.assigned_to request)
      (λ u j, bool_decide (Job.assigned_to j = Some u)) queryset in
  let queryset :=
    filter_by (Request.overdue request)
      (λ overdue j,
         bool_decide (Job.overdue j = bool_decide (lower overdue = "true")))
      queryset in
  let queryset :=
    filter_by (Request.start_date request)
      (λ d j, bool_decide (d ≤ Job.scheduled_date j)) queryset in
  filter_by (Request.end_date request)
    (λ d j, bool_decide (Job.scheduled_date j ≤ d)) queryset.

(** [initial()] checks [has_permission] of both permission classes. *)
Definition JobViewSet_check_permissions (request : Request.t) (action : string)
    : M unit :=
  check (CanCreateJob.has_permission request action
         && CanUpdateJobProgress.has_permission request) PermissionDenied.

(** [filterset_fields = ['status', 'priority', 'overdue', 'assigned_to']]:
    what the filter set finds wrong with the query parameters; the choices
    of [assigned_to] are the users that [limit_choices_to] of the model
    field allows, the technicians. *)
Definition JobViewSet_filterset_errors (request : Request.t) (db : DB)
    : list (string * list string) :=
  ChoiceFilter_errors "status"
    (JobStatus.str <$> [JobStatus.pending; JobStatus.in_progress;
                        JobStatus.completed; JobStatus.cancelled])
    (Request.status request)
  ++ ChoiceFilter_errors "priority"
       (Priority.str <$> [Priority.low; Priority.medium; Priority.high;
                          Priority.urgent])
       (Request.priority request)
  ++ ModelChoiceFilter_errors "assigned_to"
       (λ k, match users db !! k with
             | Some usr => bool_decide (User.role usr = Role.technician)
             | None => false
             end)
       (Request.assigned_to request).

(** [filter_queryset(get_queryset())]: the rows that [DjangoFilterBackend]
    keeps. [SearchFilter] (the request carries no search term) and
    [OrderingFilter] keep every row. *)
Definition JobViewSet_filter_queryset (request : Request.t) (db : DB)
    : result (list Job.t) :=
  match JobViewSet_filterset_errors request db with
  | [] =>
      let queryset := JobViewSet_get_queryset request db in
      let queryset :=
        filter_by_str (Request.status request)
          (λ s j, bool_decide (JobStatus.str (Job.status j) = s)) queryset in
      let queryset :=
        filter_by_str (Request.priority request)
          (λ p j, bool_decide (Priority.str (Job.priority j) = p)) queryset in
      let queryset :=
        filter_by (Request.overdue request ≫= BooleanWidget)
          (λ b j, bool_decide (Job.overdue j = b)) queryset in
      let queryset :=
        filter_by (Request.assigned_to request)
          (λ u j, bool_decide (Job.assigned_to j = Some u)) queryset in
      Ok queryset
  | errors => Err (FieldErrors errors)
  end.

(** [get_object]: the row with the key in the filtered queryset, or 404,
    then the object permissions. *)
Definition JobViewSet_get_object (request : Request.t) (pk : positive) : M Job.t :=
  λ db,
  match JobViewSet_filter_queryset request db with
  | Err e => (Err e, db)
  | Ok queryset =>
      match List.find (λ j, bool_decide (Job.pk j = Some pk)) queryset with
      | None => (Err Http404, db)
      | Some job =>
          if CanUpdateJobProgress.has_object_permission request (OfJob job)
          then (Ok job, db)
          else (Err PermissionDenied, db)
      end
  end.

(** [user.username if user else None], the user read through the key. *)
Definition username_json (fk : option positive) (db : DB) : json :=
  match fk ≫= (λ u, users db !! u) with
  | Some usr => JStr (User.username usr)
  | None => JNull
  end.

Definition old_new (old new : json) : json :=
  JObj [("old", old); ("new", new)].

(** The dict [changes] that [perform_update] builds. *)
Definition updated_changes (old_status : JobStatus.t)
    (old_assigned : option positive) (job : Job.t) (db : DB)
    : list (string * json) :=
  (if bool_decide (old_status ≠ Job.status job)
   then [("status", old_new (JStr (JobStatus.str old_status))
                            (JStr (JobStatus.str (Job.status job))))]
   else [])
  ++
  (if bool_decide (old_assigned ≠ Job.assigned_to job)
   then [("assigned_to", old_new (username_json old_assigned db)
                                 (username_json (Job.assigned_to job) db))]
   else []).

(** A change-log row names the job by its key. *)
Definition log_for (now : datetime) (job : Job.t) (user : User.t)
    (action : string) (changes : json) : M unit :=
  match Job.pk job with
  | Some k => JobChangeLog_create now k user action changes
  | None => raise (ValueError "save() prohibited: unsaved related object")
  end.

Section Framework.
(** Django's field-level model validation ([Model.clean_fields], which
    [full_clean] runs before [clean]) belongs to the framework and is a
    parameter: the error messages it finds, none for a valid instance. *)
Variable clean_fields : Job.t → DB → list string.

(** [full_clean] runs [clean] also when a field is invalid and raises one
    error with everything found. *)
Definition full_clean (self : Job.t) : M unit := λ db,
  let errors :=
    clean_fields self db
    ++ match clean self db with
       | Err (ModelValidationError messages) => messages
       | _ => []
       end in
  match errors with
  | [] => (Ok tt, db)
  | _ => (Err (ModelValidationError errors), db)
  end.

Definition Job_save (now : datetime) (self : Job.t) : M Job.t :=
  full_clean self;;
  Job_write now self.

Definition JobViewSet_perform_update (now : datetime) (request : Request.t)
    (pk : positive) (instance : Job.t) (attrs : JobPatch.t) : M Job.t :=
  old_instance ← JobViewSet_get_object request pk;
  let old_status := Job.status old_instance in
  let old_assigned := Job.assigned_to old_instance in
  job ← Job_save now (JobUpdateSerializer.update instance attrs);
  db ← get_db;
  let changes := updated_changes old_status old_assigned job db in
  (match changes with
   | [] => mret tt
   | _ => log_for now job (Request.user request) "updated" (JObj changes)
   end);;
  mret job.

(** [UpdateModelMixin.update] for jobs: fetch, validate, [perform_update];
    the update is partial when it comes as a PATCH. *)
Definition JobViewSet_update (now : datetime) (request : Request.t)
    (pk : positive) (data : JobPatch.t) : M Job.t :=
  JobViewSet_check_permissions request "update";;
  instance ← JobViewSet_get_object request pk;
  attrs ← JobUpdateSerializer.is_valid (partial request) instance data;
  JobViewSet_perform_update now request pk instance attrs.

(** The [complete] action. *)
Definition JobViewSet_complete (now : datetime) (request : Request.t)
    (pk : positive) : M Job.t :=
  JobViewSet_check_permissions request "complete";;
  job ← JobViewSet_get_object request pk;
  db ← get_db;
  if negb (can_complete job db)
  then raise (BadRequest "error" incomplete_msg)
  else
    let job := Job.set_status JobStatus.completed job in
    job ← Job_save now job;
    log_for now job (Request.user request) "completed"
      (JObj [("status", JStr "Job marked as completed")]);;
    mret job.

End Framework.

(** ** [Model.clean_fields] of a [Job]

    The validation that the field declarations of [Job] give, field by
    field in their order; it is what [clean_fields] above stands for when
    the model runs. A [CharField] or [TextField] may not be the empty
    string and holds at most [max_length] characters. A foreign key
    without [blank=True] may not be null, and a key that is set names a
    row of the related table that [limit_choices_to] allows. The other
    fields hold only valid values in this model. *)

Definition cannot_be_blank : string := "This field cannot be blank.".

Definition at_most_characters (limit len : nat) : string :=
  "Ensure this value has at most " +:+ pretty limit
  +:+ " characters (it has " +:+ pretty len +:+ ").".

Definition no_such_user (k : positive) : string :=
  "user instance with id " +:+ pretty (Pos.to_nat k) +:+ " does not exist.".

Definition CharField_clean (max_length : option nat) (value : string)
    : list string :=
  if bool_decide (value = "") then [cannot_be_blank]
  else match max_length with
       | Some n =>
           if bool_decide (n < String.length value)%nat
           then [at_most_characters n (String.length value)]
           else []
       | None => []
       end.

Definition Job_clean_fields (self : Job.t) (db : DB) : list string :=
  CharField_clean (Some 255%nat) (Job.title self)
  ++ CharField_clean None (Job.description self)
  ++ CharField_clean (Some 200%nat) (Job.client_name self)
  ++ match Job.created_by self with
     | None => [cannot_be_blank]
     | Some u => if users db !! u is Some _ then [] else [no_such_user u]
     end
  ++ match Job.assigned_to self with
     | None => []
     | Some u =>
         match users db !! u with
         | Some usr =>
             if bool_decide (User.role usr = Role.technician) then []
             else [no_such_user u]
         | None => [no_such_user u]
         end
     end.

(** ** [ops.tasks.check_overdue_jobs] *)

(** The filter of the sweep's queryset. *)
Definition overdue_filter (today : date) (j : Job.t) : bool :=
  bool_decide (Job.scheduled_date j < today)
  && bool_decide (Job.status j ∈ [JobStatus.pending; JobStatus.in_progress])
  && bool_decide (Job.overdue j = false).

(** [overdue_jobs.update(overdue=True)]: one UPDATE statement over the
    matching rows, returning how many it matched; it does not go through
    [Job.save]. *)
Definition overdue_jobs_update (today : date) : M nat := λ db,
  let count := size (filter (λ kv, overdue_filter today kv.2 = true) (jobs db)) in
  let rows := (λ j, if overdue_filter today j then Job.set_overdue true j else j)
                <$> jobs db in
  (Ok count, with_jobs rows db).

Definition check_overdue_jobs (now : datetime) : M string :=
  let today := date_of now in
  count ← overdue_jobs_update today;
  mret ("Marked " +:+ pretty count +:+ " jobs as overdue").

(** * Vocabulary of the statements *)

(** The job whose [assigned_to] and [created_by] decide: the target itself,
    or the owning job of a task. *)
Definition target_job (obj : target) : Job.t :=
  match obj with
  | OfJob j => j
  | OfTask _ owner => owner
  end.

(** A later edit of the role followed by a save, repeated for each role of
    [rs] in turn. *)
Definition resave (rs : list Role.t) (u : User.t) : User.t :=
  foldl (λ acc r, User_pre_save (User.set_role r acc)) u rs.

(** The sweep's condition in the words of its filter. *)
Definition is_past_due (today : date) (j : Job.t) : Prop :=
  Job.scheduled_date j < today
  ∧ (Job.status j = JobStatus.pending ∨ Job.status j = JobStatus.in_progress)
  ∧ Job.overdue j = false.

#[global] Instance is_past_due_dec today j : Decision (is_past_due today j).
Proof. unfold is_past_due. apply _. Defined.

(** A task of the table, loaded with its key, whose job row exists. *)
Definition is_task_row (t : JobTask.t) (db : DB) : Prop :=
  t ∈ JobTask_rows db ∧ is_Some (JobTaskViewSet.owner t db).


Definition by_order (a b : JobTask.t) : Prop :=
  JobTask.order a ≤ JobTask.order b.

#[global] Instance by_order_dec a b : Decision (by_order a b).
Proof. unfold by_order. apply _. Defined.








(** A text that a field of a serializer takes: trimmed it is not empty,
    has at most [max_length] characters, if there is a maximum, and no
    null character. *)
Definition text_valid (max_length : option nat) (s : string) : Prop :=
  strip s ≠ ""
  ∧ (∀ n, max_length = Some n → (String.length (strip s) ≤ n)%nat)
  ∧ (∀ i, String.get i (strip s) ≠ Some Ascii.zero).

(** A patch of a job whose fields are all valid: the texts are valid, a
    new assignee is an active technician, and, unless the update is a
    PATCH, the fields without a default ([title], [description],
    [client_name], [scheduled_date]) are all sent. *)
Definition patch_fields_valid (request : Request.t) (data : JobPatch.t)
    (db : DB) : Prop :=
  (∀ s, JobPatch.title data = Some s → text_valid (Some 255%nat) s)
  ∧ (∀ s, JobPatch.description data = Some s → text_valid None s)
  ∧ (∀ s, JobPatch.client_name data = Some s → text_valid (Some 200%nat) s)
  ∧ (∀ u, JobPatch.assigned_to_id data = Some (Some u) →
          ∃ usr, users db !! u = Some usr
                 ∧ User.role usr = Role.technician
                 ∧ User.is_active usr = true)
  ∧ (Request.method request = Method.PATCH
     ∨ (is_Some (JobPatch.title data)
        ∧ is_Some (JobPatch.description data)
        ∧ is_Some (JobPatch.client_name data)
        ∧ is_Some (JobPatch.scheduled_date data))).

(** The patch as the update takes it: the texts trimmed. *)
Definition trimmed (data : JobPatch.t) : JobPatch.t :=
  JobPatch.mk (strip <$> JobPatch.title data)
    (strip <$> JobPatch.description data)
    (strip <$> JobPatch.client_name data)
    (JobPatch.assigned_to_id data) (JobPatch.status data)
    (JobPatch.priority data) (JobPatch.scheduled_date data).


(** The row and the log entry a successful [complete] leaves. *)
Definition completed_job (now : datetime) (job : Job.t) : Job.t :=
  Job.set_updated_at now (Job.set_status JobStatus.completed job).

Definition completed_entry (now : datetime) (pk : positive) (user : User.t)
    : JobChangeLog.t :=
  JobChangeLog.mk pk (Some (User.pk user)) "completed"
    (JObj [("status", JStr "Job marked as completed")]) now.

(** How a change-log entry shows a status and a user: the stored text of
    the status, the user's name, null for no user. *)
Definition status_text (s : JobStatus.t) : string :=
  match s with
  | JobStatus.pending => "pending"
  | JobStatus.in_progress => "in_progress"
  | JobStatus.completed => "completed"
  | JobStatus.cancelled => "cancelled"
  end.

Definition username_or_null (fk : option positive) (db : DB) : json :=
  match fk with
  | Some u =>
      match users db !! u with
      | Some usr => JStr (User.username usr)
      | None => JNull
      end
  | None => JNull
  end.

Definition task_job_ok (data : TaskPatch.t) (db : DB) : bool :=
  match TaskPatch.job data with
  | Some k => bool_decide (is_Some (jobs db !! k))
  | None => true
  end.

Definition task_order_ok (data : TaskPatch.t) : bool :=
  match TaskPatch.order data with
  | Some v => negb (bool_decide (v < 0))
  | None => true
  end.

(** The row a successful task update writes, and its log entry. *)
Definition updated_task (now : datetime) (t : JobTask.t) (data : TaskPatch.t)
    : JobTask.t :=
  JobTask.set_updated_at now
    (JobTask_pre_save now (JobTaskSerializer.update t data)).

Definition task_updated_entry (now : datetime) (user : User.t)
    (old_status : TaskStatus.t) (task : JobTask.t) : JobChangeLog.t :=
  JobChangeLog.mk (JobTask.job task) (Some (User.pk user)) "task_updated"
    (task_updated_changes task old_status) now.

(** What every save of a task establishes. *)
Definition completed_at_consistent (t : JobTask.t) : Prop :=
  JobTask.completed_at t ≠ None ↔ JobTask.status t = TaskStatus.completed.

(** * Sample data *)

Definition alice : User.t := User.mk 1 "alice" Role.admin true true.
Definition bob : User.t := User.mk 2 "bob" Role.technician false true.
Definition carol : User.t := User.mk 3 "carol" Role.sales_agent false true.

Definition sample_users : gmap positive User.t :=
  <[1%positive := alice]> (<[2%positive := bob]> (<[3%positive := carol]> ∅)).

(** A pending job created by carol and assigned to bob. *)
Definition sample_job : Job.t :=
  Job.mk (Some 1%positive) "Install pump" "Replace the pump" "ACME"
    (Some 3%positive) (Some 2%positive)
    JobStatus.pending Priority.high 19000 false 100 100.

Definition sample_task (k : positive) (s : TaskStatus.t) (o : Z)
    (done_at : option datetime) : JobTask.t :=
  JobTask.mk (Some k) 1 "Step" "Do it" s o [] done_at (100 + Z.pos k) 150.

(** The job with no task, with one pending task, with one completed task,
    and with two pending tasks of order 1 and 2. *)
Definition db_no_task : DB :=
  mkDB sample_users ∅ {[1%positive := sample_job]} ∅ [].
Definition db_pending_task : DB :=
  mkDB sample_users ∅ {[1%positive := sample_job]}
    {[1%positive := sample_task 1 TaskStatus.pending 1 None]} [].
Definition db_completed_task : DB :=
  mkDB sample_users ∅ {[1%positive := sample_job]}
    {[1%positive := sample_task 1 TaskStatus.completed 1 (Some 150)]} [].

Definition all_fields_ok : Job.t → DB → list string := λ _ _, [].


(** A patch that completes the job and blanks its title. *)
Definition blank_title_patch : JobPatch.t :=
  JobPatch.mk (Some "") None None None (Some JobStatus.completed) None None.


(** Complete the job as alice, then set its task back to pending. *)
Definition complete_then_reopen : M JobTask.t :=
  JobViewSet_complete all_fields_ok 200 (Request.plain alice Method.POST) 1;;
  JobTaskViewSet_update 300 (Request.plain alice Method.PATCH) 1
    (TaskPatch.only_status TaskStatus.pending).

(** The state invariant of the specification: a completed job has only
    completed tasks. *)
Definition completed_jobs_closed (db : DB) : Prop :=
  ∀ k j t, jobs db !! k = Some j → Job.status j = JobStatus.completed →
           t ∈ tasks_of k db → JobTask.status t = TaskStatus.completed.

(** A sales agent who created no job. *)
Definition dave : User.t := User.mk 4 "dave" Role.sales_agent false true.

(** The day after the sample job's scheduled date. *)
Definition next_day : datetime := 19001 * 86400.



(** * More of the application *)

(** ** [ops.tasks.cleanup_old_logs] *)

(** [timedelta(days=d)] in seconds. *)
Definition timedelta_days (d : Z) : Z := d * 86400.

Definition cleanup_old_logs (now : datetime) : M string := λ db,
  let cutoff_date := now - timedelta_days 90 in
  let old_logs :=
    List.filter (λ l, bool_decide (JobChangeLog.timestamp l < cutoff_date))
      (job_change_logs db) in
  let count := length old_logs in
  (Ok ("Deleted " +:+ pretty count +:+ " old job change logs"),
   with_job_change_logs
     (List.filter
        (λ l, negb (bool_decide (JobChangeLog.timestamp l < cutoff_date)))
        (job_change_logs db)) db).

(** ** [ops.views.JobViewSet.change_logs] *)

(** [JobChangeLog.Meta.ordering] is [-timestamp]. *)
Definition newest_first (a b : JobChangeLog.t) : Prop :=
  JobChangeLog.timestamp b ≤ JobChangeLog.timestamp a.

#[global] Instance newest_first_dec a b : Decision (newest_first a b).
Proof. unfold newest_first. apply _. Defined.



(** ** [ops.serializers.EquipmentSerializer] *)

Module EquipmentSerializer.
(** [instance] is the key of the equipment being updated, [None] on
    creation, where [exclude(pk=None)] excludes no row. *)
Definition validate_serial_number (instance : option positive) (value : string)
    (db : DB) : result string :=
  if existsb
       (λ kv, negb (bool_decide (Some kv.1 = instance))
              && bool_decide (Equipment.serial_number kv.2 = value))
       (map_to_list (equipment db))
  then Err (BadRequest "serial_number"
              "Equipment with this serial number already exists.")
  else Ok value.
End EquipmentSerializer.

(** ** [ops.views.EquipmentViewSet.usage_stats] *)

Module UsageStats.
Record t := mk {
  equipment_id : positive;
  equipment_name : string;
  total_tasks : nat;
  completed_tasks : nat;
  pending_tasks : nat;
  in_progress_tasks : nat
}.
End UsageStats.

(** [equipment.tasks]: the tasks that require the equipment. *)
Definition Equipment_tasks (k : positive) (db : DB) : list JobTask.t :=
  List.filter (λ t, bool_decide (k ∈ JobTask.required_equipment t))
    (JobTask_rows db).

(** [queryset.filter(status=s).count()] *)
Definition count_status (s : TaskStatus.t) (qs : list JobTask.t) : nat :=
  length (List.filter (λ t, bool_decide (JobTask.status t = s)) qs).

(** The response of [usage_stats] for the equipment [get_object] found. *)
Definition EquipmentViewSet_usage_stats (k : positive) (e : Equipment.t)
    (db : DB) : UsageStats.t :=
  UsageStats.mk k (Equipment.name e)
    (length (Equipment_tasks k db))
    (count_status TaskStatus.completed (Equipment_tasks k db))
    (count_status TaskStatus.pending (Equipment_tasks k db))
    (count_status TaskStatus.in_progress (Equipment_tasks k db)).

(** ** [ops.serializers.JobSerializer], the task counters *)

Module JobSerializer.
(** [obj.tasks] of a saved job. *)
Definition tasks (obj : Job.t) (db : DB) : list JobTask.t :=
  from_option (λ k, tasks_of k db) [] (Job.pk obj).

Definition get_tasks_count (obj : Job.t) (db : DB) : nat :=
  length (tasks obj db).

Definition get_completed_tasks_count (obj : Job.t) (db : DB) : nat :=
  count_status TaskStatus.completed (tasks obj db).
End JobSerializer.

(** ** [ops.serializers.JobCreateSerializer.validate_client_name] *)

Module JobCreateSerializer.
Definition validate_client_name (value : string) : result string :=
  if bool_decide (value = "") || bool_decide (strip value = "")
  then Err (BadRequest "client_name" "Client name cannot be empty.")
  else Ok (strip value).
End JobCreateSerializer.

(** ** [ops.views.JobViewSet.perform_create] *)

Module JobCreate.
(** The validated data of [JobCreateSerializer]; [assigned_to] is absent or
    null as [None], [priority] may be absent. *)
Record t := mk {
  title : string;
  description : string;
  client_name : string;
  assigned_to : option positive;
  priority : option Priority.t;
  scheduled_date : date
}.
End JobCreate.

(** [serializer.save(created_by=user)]: [Job.objects.create] with the
    validated data, the model defaults for the rest, through [Job.save]. *)
Definition JobCreateSerializer_save
    (clean_fields : Job.t → DB → list string) (now : datetime)
    (attrs : JobCreate.t) (created_by : User.t) : M Job.t :=
  Job_save clean_fields now
    (Job.mk None
       (JobCreate.title attrs) (JobCreate.description attrs)
       (JobCreate.client_name attrs)
       (Some (User.pk created_by)) (JobCreate.assigned_to attrs)
       JobStatus.pending
       (default Priority.medium (JobCreate.priority attrs))
       (JobCreate.scheduled_date attrs) false now now).

Definition created_changes (job : Job.t) : json :=
  JObj [("status", JStr "Job created");
        ("title", JStr (Job.title job));
        ("client_name", JStr (Job.client_name job))].

Definition JobViewSet_perform_create
    (clean_fields : Job.t → DB → list string) (now : datetime)
    (request : Request.t) (attrs : JobCreate.t) : M Job.t :=
  job ← JobCreateSerializer_save clean_fields now attrs (Request.user request);
  log_for now job (Request.user request) "created" (created_changes job);;
  mret job.

(** ** Task creation: [JobTaskCreateSerializer] through [perform_create] *)

Module TaskCreate.
(** The validated data of [JobTaskCreateSerializer]; [order] may be
    absent. *)
Record t := mk {
  job : positive;
  title : string;
  description : string;
  order : option Z;
  required_equipment : list positive
}.
End TaskCreate.

(** [serializer.save()]: [JobTask.objects.create] with the validated data
    and the model defaults ([status] pending, [order] 0, no
    [completed_at]), through [JobTask.save]. *)
Definition JobTaskCreateSerializer_save (now : datetime) (attrs : TaskCreate.t)
    : M JobTask.t :=
  JobTask_save now
    (JobTask.mk None (TaskCreate.job attrs) (TaskCreate.title attrs)
       (TaskCreate.description attrs) TaskStatus.pending
       (default 0 (TaskCreate.order attrs))
       (TaskCreate.required_equipment attrs) None now now).

(** ** Deleting a job: [ModelViewSet.destroy] on [JobViewSet] *)

(** [instance.delete()]: the job's row goes, and with it, by
    [on_delete=models.CASCADE], the tasks and the change-log entries that
    reference it. *)
Definition Job_delete (k : positive) : M unit := λ db,
  (Ok tt,
   mkDB (users db) (equipment db)
     (delete k (jobs db))
     (filter (λ kv : positive * JobTask.t, JobTask.job kv.2 ≠ k) (job_tasks db))
     (List.filter (λ l, negb (bool_decide (JobChangeLog.job l = k)))
        (job_change_logs db))).

(** The destroy action, a DELETE route. *)
Definition JobViewSet_destroy (request : Request.t) (pk : positive) : M unit :=
  JobViewSet_check_permissions request "destroy";;
  JobViewSet_get_object request pk;;
  Job_delete pk.

(** ** The other permission classes of [ops.permissions] *)

Module IsAdmin.
Definition has_permission (request : Request.t) : bool :=
  bool_decide (User.role (Request.user request) = Role.admin).
End IsAdmin.

Module IsAdminOrSalesAgent.
Definition has_permission (request : Request.t) : bool :=
  bool_decide (User.role (Request.user request)
               ∈ [Role.admin; Role.sales_agent]).
End IsAdminOrSalesAgent.

Module IsTechnician.
Definition has_permission (request : Request.t) : bool :=
  bool_decide (User.role (Request.user request) = Role.technician).
End IsTechnician.

Module CanManageUsers.
Definition has_permission (request : Request.t) : bool :=
  if Method.safe (Request.method request) then true
  else bool_decide (User.role (Request.user request) = Role.admin).
End CanManageUsers.

Module CanManageEquipment.
Definition has_permission (request : Request.t) : bool :=
  if Method.safe (Request.method request) then true
  else bool_decide (User.role (Request.user request) = Role.admin).
End CanManageEquipment.

Module CanViewAnalytics.
Definition has_permission (request : Request.t) : bool :=
  bool_decide (User.role (Request.user request) = Role.admin).
End CanViewAnalytics.

(** ** Vocabulary of the further statements *)

(** No two rows of the equipment table share a serial number
    ([serial_number] is [unique=True]). *)
Definition serials_unique (m : gmap positive Equipment.t) : Prop :=
  ∀ k1 k2 e1 e2, m !! k1 = Some e1 → m !! k2 = Some e2 →
                 Equipment.serial_number e1 = Equipment.serial_number e2 →
                 k1 = k2.

(** Every stored task is as a save leaves it. *)
Definition tasks_consistent (db : DB) : Prop :=
  ∀ k row, job_tasks db !! k = Some row → completed_at_consistent row.

(** Whether every character of a string is whitespace, and the first and
    last character of a string. *)
Fixpoint all_space (s : string) : bool :=
  match s with
  | EmptyString => true
  | String c s' => isspace c && all_space s'
  end.

Definition first_char (s : string) : option ascii :=
  match s with
  | EmptyString => None
  | String c _ => Some c
  end.

Fixpoint last_char (s : string) : option ascii :=
  match s with
  | EmptyString => None
  | String c EmptyString => Some c
  | String _ s' => last_char s'
  end.

(** Every task and every change-log entry references a job of the table. *)
Definition references_ok (db : DB) : Prop :=
  (∀ k t, job_tasks db !! k = Some t → is_Some (jobs db !! JobTask.job t))
  ∧ (∀ l, l ∈ job_change_logs db → is_Some (jobs db !! JobChangeLog.job l)).

(** ** Further sample data *)

(** A technician to whom no job is assigned. *)
Definition erin : User.t := User.mk 5 "erin" Role.technician false true.

(** The sample database after the job was completed and its task reopened. *)
Definition db_reopened : DB := (complete_then_reopen db_completed_task).2.

(** A patch that only renames the job, and one that only assigns bob. *)
Definition rename_patch : JobPatch.t :=
  JobPatch.mk (Some "Install two pumps") None None None None None None.
Definition assign_bob_patch : JobPatch.t :=
  JobPatch.mk None None None (Some (Some 2%positive)) None None None.

Definition old_entry : JobChangeLog.t :=
  JobChangeLog.mk 1 (Some 1%positive) "created" JNull 0.

Definition recent_entry : JobChangeLog.t :=
  JobChangeLog.mk 1 (Some 1%positive) "updated" JNull (100 * 86400).

Definition db_two_logs : DB :=
  with_job_change_logs [old_entry; recent_entry] db_no_task.

(** * Properties *)

(** Running a computation step by step. *)
Lemma bind_ok {A B} (m : M A) (k : A → M B) db a db' :
  m db = (Ok a, db') → (m ≫= k) db = k a db'.
Proof. intros H. unfold mbind, M_bind, bind. by rewrite H. Qed.

Lemma bind_err {A B} (m : M A) (k : A → M B) db e db' :
  m db = (Err e, db') → (m ≫= k) db = (Err e, db').
Proof. intros H. unfold mbind, M_bind, bind. by rewrite H. Qed.

Ltac run :=
  repeat (progress (unfold mbind, M_bind, bind, mret, M_ret, ret, raise,
                    get_db, put_db, lift, check in *; simpl in *)).

(** ** Object-level authorization *)

(** C2: for an authenticated actor and a Job or Task target, reads (safe
    methods) are always permitted, and a write is permitted exactly when the
    actor is an admin, or a technician who is the [assigned_to] of the job
    (the owning job for a task), or a sales agent who is its [created_by];
    everything else is denied. *)
Theorem has_object_permission_spec (request : Request.t) (obj : target) :
  CanUpdateJobProgress.has_object_permission request obj =
    (if Method.safe (Request.method request) then true
     else bool_decide
       (User.role (Request.user request) = Role.admin
        ∨ (User.role (Request.user request) = Role.technician
           ∧ Job.assigned_to (target_job obj)
             = Some (User.pk (Request.user request)))
        ∨ (User.role (Request.user request) = Role.sales_agent
           ∧ Job.created_by (target_job obj)
             = Some (User.pk (Request.user request))))).
Proof.
  unfold CanUpdateJobProgress.has_object_permission, is_user.
  destruct (Method.safe _); [done|].
  destruct obj as [j|t j]; simpl;
    destruct (User.role (Request.user request)) eqn:Hr; simpl;
    repeat case_bool_decide; try done; exfalso; intuition congruence.
Qed.

(** ** Users *)

Lemma User_save_run (u : User.t) (db : DB) :
  User_save u db =
    (Ok (User_pre_save u),
     with_users (<[User.pk u := User_pre_save u]> (users db)) db).
Proof.
  unfold User_save. run. unfold User_pre_save.
  by destruct (decide _).
Qed.

Lemma User_pre_save_keeps_staff (u : User.t) :
  User.is_staff u = true → User.is_staff (User_pre_save u) = true.
Proof. unfold User_pre_save. by destruct (decide _). Qed.

(** C10: a save of a user whose role is admin stores [is_staff = True]; a
    save of a user with another role stores [is_staff] as it was, so after
    the role moves away from admin every later save still leaves
    [is_staff = True]. *)
Theorem User_save_is_staff (u : User.t) (db : DB) :
  ∃ u', User_save u db = (Ok u', with_users (<[User.pk u := u']> (users db)) db)
    ∧ User.role u' = User.role u
    ∧ User.is_staff u' =
        (if decide (User.role u = Role.admin) then true else User.is_staff u)
    ∧ ∀ rs, User.role u = Role.admin → User.is_staff (resave rs u') = true.
Proof.
  exists (User_pre_save u). split; [apply User_save_run|].
  unfold User_pre_save at 1 2.
  destruct (decide (User.role u = Role.admin)) as [Ha|Hn]; simpl;
    (split; [done|]); (split; [done|]).
  - intros rs _.
    assert (Hs : User.is_staff (User_pre_save u) = true).
    { unfold User_pre_save. by destruct (decide _). }
    revert Hs. generalize (User_pre_save u). unfold resave.
    induction rs as [|r rs IH]; intros v Hv; simpl; [done|].
    apply IH. by apply User_pre_save_keeps_staff.
  - intros rs Ha. done.
Qed.

(** ** Tasks: [completed_at] *)

Lemma JobTask_pre_save_status now (t : JobTask.t) :
  JobTask.status (JobTask_pre_save now t) = JobTask.status t.
Proof. unfold JobTask_pre_save. by repeat case_match. Qed.

Lemma JobTask_pre_save_completed_at now (t : JobTask.t) :
  JobTask.completed_at (JobTask_pre_save now t) =
    if decide (JobTask.status t = TaskStatus.completed)
    then match JobTask.completed_at t with
         | None => Some now
         | Some c => Some c
         end
    else None.
Proof.
  unfold JobTask_pre_save.
  destruct (JobTask.completed_at t) eqn:Hc, (decide _) as [Hs|Hs];
    repeat case_bool_decide; simpl; try done; try rewrite Hc; congruence.
Qed.

(** What [save] leaves in the table: the row under the instance's key. *)
Lemma JobTask_save_run now (t : JobTask.t) (db : DB) :
  ∃ k t', JobTask_save now t db =
            (Ok t', with_job_tasks (<[k := t']> (job_tasks db)) db)
    ∧ JobTask.pk t' = Some k
    ∧ (∀ k0, JobTask.pk t = Some k0 → k = k0)
    ∧ JobTask.status t' = JobTask.status t
    ∧ JobTask.job t' = JobTask.job t
    ∧ JobTask.title t' = JobTask.title t
    ∧ JobTask.completed_at t' = JobTask.completed_at (JobTask_pre_save now t).
Proof.
  unfold JobTask_save, JobTask_write.
  assert (Hpk : JobTask.pk (JobTask_pre_save now t) = JobTask.pk t).
  { unfold JobTask_pre_save. by repeat case_match. }
  assert (Hj : JobTask.job (JobTask_pre_save now t) = JobTask.job t).
  { unfold JobTask_pre_save. by repeat case_match. }
  assert (Hti : JobTask.title (JobTask_pre_save now t) = JobTask.title t).
  { unfold JobTask_pre_save. by repeat case_match. }
  pose proof (JobTask_pre_save_status now t) as Hst.
  rewrite Hpk. destruct (JobTask.pk t) as [k|] eqn:Hk.
  - eexists k, _. split; [done|]. simpl. repeat split; try done. by intros ? [= ->].
  - eexists _, _. split; [done|]. simpl. repeat split; done.
Qed.

(** C4: after any save of a task, [completed_at] is set if and only if the
    status is completed; a save with status completed and no [completed_at]
    yet sets it to the current time, and a save with any other status
    clears it. *)
Theorem JobTask_save_completed_at (now : datetime) (t : JobTask.t) (db : DB) :
  ∃ k t', JobTask_save now t db =
            (Ok t', with_job_tasks (<[k := t']> (job_tasks db)) db)
    ∧ JobTask.status t' = JobTask.status t
    ∧ (JobTask.completed_at t' ≠ None ↔ JobTask.status t' = TaskStatus.completed)
    ∧ (JobTask.status t = TaskStatus.completed ∧ JobTask.completed_at t = None
       → JobTask.completed_at t' = Some now)
    ∧ (JobTask.status t ≠ TaskStatus.completed
       → JobTask.completed_at t' = None).
Proof.
  destruct (JobTask_save_run now t db)
    as (k & t' & Hrun & _ & _ & Hst & _ & _ & Hc).
  exists k, t'. split; [done|]. split; [done|].
  rewrite Hc, Hst, JobTask_pre_save_completed_at.
  destruct (decide (JobTask.status t = TaskStatus.completed)) as [Hs|Hs].
  - split; [|split].
    + split; [done|]. intros _. by destruct (JobTask.completed_at t).
    + by intros [_ ->].
    + done.
  - split; [|split]; [split| |]; try done. by intros [? _].
Qed.

(** ** The overdue sweep *)

Lemma overdue_filter_spec today (j : Job.t) :
  overdue_filter today j = true ↔ is_past_due today j.
Proof.
  unfold overdue_filter, is_past_due.
  rewrite !andb_true_iff, !bool_decide_eq_true.
  rewrite !elem_of_cons, elem_of_nil. naive_solver.
Qed.

Lemma overdue_filter_flagged today today' (j : Job.t) :
  overdue_filter today'
    (if overdue_filter today j then Job.set_overdue true j else j) = true
  → overdue_filter today j = false ∧ overdue_filter today' j = true.
Proof.
  destruct (overdue_filter today j) eqn:E; [|done].
  unfold overdue_filter at 1. simpl.
  rewrite !andb_true_iff, !bool_decide_eq_true. naive_solver.
Qed.

Lemma past_due_count today (m : gmap positive Job.t) :
  size (filter (λ kv, overdue_filter today kv.2 = true) m)
  = size (filter (λ kv : positive * Job.t, is_past_due today kv.2) m).
Proof.
  f_equal. apply map_filter_ext. intros k j _. apply overdue_filter_spec.
Qed.

(** C6: the sweep sets [overdue] on exactly the jobs scheduled before today
    whose status is pending or in progress and that are not yet flagged,
    leaves every other row, every other field and every other table
    (the change log included) as they were; the bulk update returns the
    number of rows it updated and the task returns the message that states
    that number; a second run on the result updates none, and no job flagged
    by one run is matched by any later run. *)
Theorem check_overdue_jobs_spec (now : datetime) (db : DB) :
  ∃ db',
    overdue_jobs_update (date_of now) db =
      (Ok (size (filter (λ kv : positive * Job.t,
                           is_past_due (date_of now) kv.2) (jobs db))), db')
    ∧ check_overdue_jobs now db =
      (Ok ("Marked "
           +:+ pretty (size (filter (λ kv : positive * Job.t,
                                       is_past_due (date_of now) kv.2)
                                    (jobs db)))
           +:+ " jobs as overdue"), db')
    ∧ (∀ k, jobs db' !! k =
            match jobs db !! k with
            | Some j => if decide (is_past_due (date_of now) j)
                        then Some (Job.set_overdue true j)
                        else Some j
            | None => None
            end)
    ∧ users db' = users db
    ∧ equipment db' = equipment db
    ∧ job_tasks db' = job_tasks db
    ∧ job_change_logs db' = job_change_logs db
    ∧ check_overdue_jobs now db' = (Ok "Marked 0 jobs as overdue", db')
    ∧ (∀ later k j j', jobs db !! k = Some j → is_past_due (date_of now) j →
         jobs db' !! k = Some j' → ¬ is_past_due (date_of later) j').
Proof.
  unfold check_overdue_jobs, overdue_jobs_update. run.
  eexists. split; [by rewrite past_due_count|].
  split; [by rewrite past_due_count|]. simpl.
  split; [|repeat split].
  - intros k. rewrite lookup_fmap. destruct (jobs db !! k) as [j|]; [|done].
    simpl. destruct (decide _) as [H|H].
    + apply overdue_filter_spec in H. by rewrite H.
    + destruct (overdue_filter (date_of now) j) eqn:E; [|done].
      by apply overdue_filter_spec in E.
  - set (m' := _ <$> jobs db).
    assert (Hm : filter (λ kv : positive * Job.t,
                           overdue_filter (date_of now) kv.2 = true) m' = ∅).
    { apply map_empty. intros k. apply map_lookup_filter_None.
      right. intros j Hk Hf. simpl in Hf.
      subst m'. rewrite lookup_fmap in Hk.
      destruct (jobs db !! k) as [j0|]; [|done]. simpl in Hk.
      injection Hk as <-. apply overdue_filter_flagged in Hf.
      destruct Hf as [H1 H2]. congruence. }
    rewrite Hm, map_size_empty. f_equal. unfold with_jobs. simpl. f_equal.
    apply map_eq. intros k. rewrite lookup_fmap.
    destruct (m' !! k) as [j|] eqn:Hk; [|done]. simpl.
    destruct (overdue_filter (date_of now) j) eqn:E; [|done].
    exfalso. assert (Hin : filter (λ kv : positive * Job.t,
                           overdue_filter (date_of now) kv.2 = true) m' !! k
                           = Some j) by by apply map_lookup_filter_Some.
    by rewrite Hm in Hin.
  - intros later k j j' Hk Hp Hk'. rewrite lookup_fmap, Hk in Hk'. simpl in Hk'.
    apply overdue_filter_spec in Hp. rewrite Hp in Hk'. injection Hk' as <-.
    unfold is_past_due. simpl. naive_solver.
Qed.

(** ** Task querysets *)

Lemma elem_of_List_filter {A} (f : A → bool) (l : list A) (x : A) :
  x ∈ List.filter f l ↔ x ∈ l ∧ f x = true.
Proof. rewrite !list_elem_of_In. apply filter_In. Qed.

Lemma List_filter_sublist {A} (f : A → bool) (l : list A) :
  sublist (List.filter f l) l.
Proof.
  induction l as [|x l IH]; simpl; [constructor|].
  destruct (f x); by constructor.
Qed.

Lemma List_filter_split_length {A} (f : A → bool) (l : list A) :
  length l = (length (List.filter f l)
              + length (List.filter (λ x, negb (f x)) l))%nat.
Proof.
  induction l as [|x l IH]; simpl; [done|].
  destruct (f x); simpl; lia.
Qed.

Lemma List_filter_none {A} (f : A → bool) (l : list A) :
  (∀ x, x ∈ l → f x = false) → List.filter f l = [].
Proof.
  induction l as [|x l IH]; simpl; intros H; [done|].
  rewrite (H x) by constructor. apply IH. intros y Hy. apply H. by constructor.
Qed.

Lemma List_filter_all {A} (f : A → bool) (l : list A) :
  (∀ x, x ∈ l → f x = true) → List.filter f l = l.
Proof.
  induction l as [|x l IH]; simpl; intros H; [done|].
  rewrite (H x) by constructor. f_equal. apply IH. intros y Hy.
  apply H. by constructor.
Qed.

Lemma filter_by_all {A B} (param : option B) (p : B → A → bool) (qs : list A) :
  (∀ x b, x ∈ qs → param = Some b → p b x = true) → filter_by param p qs = qs.
Proof.
  destruct param as [b|]; simpl; [|done].
  intros H. apply List_filter_all. eauto.
Qed.

Lemma filter_by_str_all {A} (param : option string) (p : string → A → bool)
    (qs : list A) :
  (∀ x s, x ∈ qs → param = Some s → s ≠ "" → p s x = true) →
  filter_by_str param p qs = qs.
Proof.
  destruct param as [s|]; simpl; [|done].
  case_bool_decide; [done|]. intros Hall. apply List_filter_all. eauto.
Qed.

Lemma filter_by_sublist {A B} (param : option B) (p : B → A → bool)
    (qs : list A) :
  sublist (filter_by param p qs) qs.
Proof. destruct param; simpl; [apply List_filter_sublist|done]. Qed.

Lemma filter_by_str_sublist {A} (param : option string) (p : string → A → bool)
    (qs : list A) :
  sublist (filter_by_str param p qs) qs.
Proof.
  destruct param; simpl; [|done].
  case_bool_decide; [done|apply List_filter_sublist].
Qed.

Lemma elem_of_filter_by {A B} (param : option B) (p : B → A → bool) qs (x : A) :
  x ∈ filter_by param p qs ↔ x ∈ qs ∧ ∀ b, param = Some b → p b x = true.
Proof.
  destruct param as [b|]; simpl.
  - rewrite elem_of_List_filter. naive_solver.
  - naive_solver.
Qed.

Lemma elem_of_filter_by_str {A} (param : option string) (p : string → A → bool)
    qs (x : A) :
  x ∈ filter_by_str param p qs
  ↔ x ∈ qs ∧ ∀ s, param = Some s → s ≠ "" → p s x = true.
Proof.
  destruct param as [s|]; simpl; [|naive_solver].
  case_bool_decide; [naive_solver|].
  rewrite elem_of_List_filter. naive_solver.
Qed.

(** Membership in the task queryset. *)
Lemma elem_of_task_queryset (request : Request.t) (db : DB) (t : JobTask.t) :
  t ∈ JobTaskViewSet.get_queryset request db ↔
    is_task_row t db
    ∧ (∀ k, Request.job request = Some k → JobTask.job t = k)
    ∧ (∀ s, Request.status request = Some s → s ≠ "" →
         TaskStatus.str (JobTask.status t) = s)
    ∧ (User.role (Request.user request) = Role.technician →
         ∃ j, JobTaskViewSet.owner t db = Some j
              ∧ Job.assigned_to j = Some (User.pk (Request.user request))).
Proof.
  assert (Hbase : ∀ qs : list JobTask.t,
    t ∈ filter_by_str (Request.status request)
          (λ s t, bool_decide (TaskStatus.str (JobTask.status t) = s))
          (filter_by (Request.job request)
             (λ k t, bool_decide (JobTask.job t = k))
             (List.filter (λ t, bool_decide (is_Some (JobTaskViewSet.owner t db)))
                qs))
    ↔ (t ∈ qs ∧ is_Some (JobTaskViewSet.owner t db))
      ∧ (∀ k, Request.job request = Some k → JobTask.job t = k)
      ∧ (∀ s, Request.status request = Some s → s ≠ "" →
           TaskStatus.str (JobTask.status t) = s)).
  { intros qs. rewrite elem_of_filter_by_str, elem_of_filter_by,
      elem_of_List_filter, bool_decide_eq_true.
    setoid_rewrite bool_decide_eq_true. naive_solver. }
  unfold JobTaskViewSet.get_queryset, is_task_row.
  destruct (User.role (Request.user request)) eqn:Hr.
  - rewrite Hbase. naive_solver.
  - rewrite elem_of_List_filter, Hbase. unfold is_user.
    destruct (JobTaskViewSet.owner t db) as [j|] eqn:Ho.
    + rewrite bool_decide_eq_true. naive_solver.
    + split; [naive_solver|]. intros (_ & _ & _ & H).
      destruct (H eq_refl) as (? & ? & _). done.
  - rewrite Hbase. naive_solver.
Qed.


(** ** Ordering of task listings *)

(** Every ordering term compares two tasks by one integer key. *)
Lemma field_cmp_key (f : string) :
  ∃ key : JobTask.t → Z, ∀ a b, field_cmp f a b = (key a ?= key b).
Proof.
  unfold field_cmp, JobTask_field.
  destruct (bool_decide (f = "order")); [by exists JobTask.order|].
  destruct (bool_decide (f = "created_at")); [by exists JobTask.created_at|].
  exists (λ _, 0). intros. by rewrite Z.compare_refl.
Qed.

Lemma term_cmp_key (term : string) :
  ∃ key : JobTask.t → Z, ∀ a b, term_cmp term a b = (key a ?= key b).
Proof.
  assert (Hneg : ∀ f, ∃ key : JobTask.t → Z,
            ∀ a b, CompOpp (field_cmp f a b) = (key a ?= key b)).
  { intros f. destruct (field_cmp_key f) as [key Hkey].
    exists (λ t, - key t). intros a b.
    rewrite Hkey, Z.compare_opp. symmetry. apply Z.compare_antisym. }
  unfold term_cmp.
  destruct term as [|c f]; [apply field_cmp_key|].
  destruct c as [[] [] [] [] [] [] [] []]; first [apply Hneg | apply field_cmp_key].
Qed.

#[global] Instance terms_le_total terms : Total (terms_le terms).
Proof.
  unfold terms_le. intros a b. induction terms as [|t ts IH]; simpl; [by left|].
  destruct (term_cmp_key t) as [key Hkey]. rewrite !Hkey.
  destruct (Z.compare_spec (key a) (key b)), (Z.compare_spec (key b) (key a));
    try lia; auto.
Qed.

#[global] Instance terms_le_trans terms : Transitive (terms_le terms).
Proof.
  unfold terms_le. intros a b c. induction terms as [|t ts IH]; simpl; [done|].
  destruct (term_cmp_key t) as [key Hkey]. rewrite !Hkey.
  destruct (Z.compare_spec (key a) (key b)), (Z.compare_spec (key b) (key c)),
           (Z.compare_spec (key a) (key c)); try lia; auto.
Qed.


Lemma order_by_perm terms (qs : list JobTask.t) : order_by terms qs ≡ₚ qs.
Proof. apply merge_sort_Permutation. Qed.



Lemma default_ordering_le (a b : JobTask.t) :
  terms_le JobTaskViewSet.ordering a b → by_order a b.
Proof.
  unfold terms_le, by_order. simpl. unfold field_cmp. simpl.
  destruct (Z.compare_spec (JobTask.order a) (JobTask.order b));
    intros; try done; lia.
Qed.




(** What the filter set lets through is what [get_queryset] already
    filtered on the same parameters. *)
Lemma JobTaskViewSet_filter_queryset_run (request : Request.t) (db : DB) :
  JobTaskViewSet.filter_queryset request db =
    match JobTaskViewSet.filterset_errors request db with
    | [] => Ok (order_by (JobTaskViewSet.get_ordering request)
                  (JobTaskViewSet.get_queryset request db))
    | errors => Err (FieldErrors errors)
    end.
Proof.
  unfold JobTaskViewSet.filter_queryset.
  destruct (JobTaskViewSet.filterset_errors request db); [|done].
  rewrite filter_by_all, filter_by_str_all; [done| |].
  - intros t s Ht Hs Hne. apply bool_decide_eq_true.
    apply elem_of_task_queryset in Ht as (_ & _ & Hst & _). eauto.
  - intros t k Ht Hk. apply bool_decide_eq_true.
    apply elem_of_task_queryset in Ht as (_ & Hjob & _). eauto.
Qed.

Lemma JobTaskViewSet_filter_queryset_inv request db queryset :
  JobTaskViewSet.filter_queryset request db = Ok queryset →
  JobTaskViewSet.filterset_errors request db = []
  ∧ queryset = order_by (JobTaskViewSet.get_ordering request)
                 (JobTaskViewSet.get_queryset request db).
Proof.
  rewrite JobTaskViewSet_filter_queryset_run.
  destruct (JobTaskViewSet.filterset_errors request db); [|done].
  by intros [= <-].
Qed.







(** ** Reading rows *)

Lemma elem_of_Job_rows (j : Job.t) (db : DB) :
  j ∈ Job_rows db ↔
  ∃ k row, jobs db !! k = Some row ∧ j = Job.set_pk (Some k) row.
Proof.
  unfold Job_rows. rewrite list_elem_of_fmap. split.
  - intros ([k row] & -> & Hin). apply elem_of_map_to_list in Hin. eauto.
  - intros (k & row & Hk & ->). exists (k, row). split; [done|].
    by apply elem_of_map_to_list.
Qed.

Lemma elem_of_JobTask_rows (t : JobTask.t) (db : DB) :
  t ∈ JobTask_rows db ↔
  ∃ k row, job_tasks db !! k = Some row ∧ t = JobTask.set_pk (Some k) row.
Proof.
  unfold JobTask_rows. rewrite list_elem_of_fmap. split.
  - intros ([k row] & -> & Hin). apply elem_of_map_to_list in Hin. eauto.
  - intros (k & row & Hk & ->). exists (k, row). split; [done|].
    by apply elem_of_map_to_list.
Qed.

Lemma elem_of_tasks_of (t : JobTask.t) (k : positive) (db : DB) :
  t ∈ tasks_of k db ↔
  ∃ key row, job_tasks db !! key = Some row
             ∧ t = JobTask.set_pk (Some key) row ∧ JobTask.job row = k.
Proof.
  unfold tasks_of. rewrite elem_of_List_filter, elem_of_JobTask_rows,
    bool_decide_eq_true.
  split.
  - intros ((key & row & Hk & ->) & Hj). eauto.
  - intros (key & row & Hk & -> & Hj). eauto.
Qed.

Lemma find_pk_Some {A} (pk_of : A → option positive) (l : list A) k x :
  List.find (λ y, bool_decide (pk_of y = Some k)) l = Some x →
  x ∈ l ∧ pk_of x = Some k.
Proof.
  intros H. apply find_some in H as [Hin Hp].
  apply bool_decide_eq_true in Hp. by rewrite list_elem_of_In.
Qed.

Lemma JobViewSet_get_queryset_sub request db (j : Job.t) :
  j ∈ JobViewSet_get_queryset request db → j ∈ Job_rows db.
Proof.
  unfold JobViewSet_get_queryset. cbv zeta. intros H.
  repeat apply elem_of_filter_by in H as [H _].
  repeat apply elem_of_filter_by_str in H as [H _].
  destruct (User.role _); [done| |];
    by apply elem_of_List_filter in H as [? _].
Qed.


(** The filter backend only removes rows. *)
Lemma JobViewSet_filter_queryset_sub request db queryset (j : Job.t) :
  JobViewSet_filter_queryset request db = Ok queryset →
  j ∈ queryset → j ∈ JobViewSet_get_queryset request db.
Proof.
  unfold JobViewSet_filter_queryset.
  destruct (JobViewSet_filterset_errors request db); [|done].
  intros [= <-] H.
  repeat apply elem_of_filter_by in H as [H _].
  by repeat apply elem_of_filter_by_str in H as [H _].
Qed.

(** What a successful [get_object] on jobs tells: the database is not
    touched, the job is the row under the key, and the request may act on
    it. *)
Lemma JobViewSet_get_object_inv request pk db r db' :
  JobViewSet_get_object request pk db = (r, db') →
  db' = db ∧
  ∀ job, r = Ok job →
    Job.pk job = Some pk
    ∧ Job_get pk db = Some job
    ∧ CanUpdateJobProgress.has_object_permission request (OfJob job) = true.
Proof.
  unfold JobViewSet_get_object.
  destruct (JobViewSet_filter_queryset request db) as [queryset|e] eqn:Hq;
    [|intros [= <- <-]; split; [done|by intros job [=]]].
  destruct (List.find _ queryset) as [j|] eqn:Hf.
  - apply find_pk_Some in Hf as [Hin Hpk].
    apply (JobViewSet_filter_queryset_sub _ _ _ _ Hq) in Hin.
    apply JobViewSet_get_queryset_sub, elem_of_Job_rows in Hin
      as (k & row & Hk & ->).
    simpl in Hpk. injection Hpk as ->.
    destruct (CanUpdateJobProgress.has_object_permission _ _) eqn:Hp;
      intros [= <- <-]; (split; [done|]); intros job [= <-].
    unfold Job_get. by rewrite Hk.
  - intros [= <- <-]. split; [done|]. by intros job [=].
Qed.

Lemma JobTaskViewSet_get_object_inv request pk db r db' :
  JobTaskViewSet.get_object request pk db = (r, db') →
  db' = db ∧
  ∀ t, r = Ok t →
    JobTask.pk t = Some pk
    ∧ JobTask_get pk db = Some t
    ∧ ∃ j, JobTaskViewSet.owner t db = Some j
           ∧ CanUpdateJobProgress.has_object_permission request (OfTask t j)
             = true.
Proof.
  unfold JobTaskViewSet.get_object.
  destruct (JobTaskViewSet.filter_queryset request db) as [queryset|e] eqn:Hq;
    [|intros [= <- <-]; split; [done|by intros t [=]]].
  apply JobTaskViewSet_filter_queryset_inv in Hq as [_ ->].
  destruct (List.find _ _) as [t|] eqn:Hf.
  - apply find_pk_Some in Hf as [Hin Hpk].
    rewrite order_by_perm in Hin.
    apply elem_of_task_queryset in Hin as ([Hin _] & _).
    apply elem_of_JobTask_rows in Hin as (k & row & Hk & ->).
    simpl in Hpk. injection Hpk as ->.
    destruct (JobTaskViewSet.owner _ db) as [j|] eqn:Ho.
    + destruct (CanUpdateJobProgress.has_object_permission _ _) eqn:Hp;
        intros [= <- <-]; (split; [done|]); intros t [= <-].
      unfold JobTask_get. rewrite Hk. eauto.
    + intros [= <- <-]. split; [done|]. by intros t [=].
  - intros [= <- <-]. split; [done|]. by intros t [=].
Qed.

Lemma JobViewSet_check_permissions_ok request action db :
  action ≠ "create" →
  JobViewSet_check_permissions request action db = (Ok tt, db).
Proof.
  intros Ha. unfold JobViewSet_check_permissions, check,
    CanCreateJob.has_permission, CanUpdateJobProgress.has_permission.
  rewrite bool_decide_eq_false_2 by done.
  by destruct (Request.method request).
Qed.

(** ** Completion gate *)

Lemma can_complete_false (self : Job.t) (db : DB) :
  can_complete self db = false ↔
  ∃ k t, Job.pk self = Some k ∧ t ∈ tasks_of k db
         ∧ (JobTask.status t = TaskStatus.pending
            ∨ JobTask.status t = TaskStatus.in_progress).
Proof.
  unfold can_complete. destruct (Job.pk self) as [k|]; [|naive_solver].
  rewrite negb_false_iff, existsb_exists. unfold task_is_open.
  setoid_rewrite <-list_elem_of_In. split.
  - intros (t & Hin & Ho). exists k, t. repeat split; [done|].
    destruct (JobTask.status t); auto; done.
  - intros (k' & t & [= <-] & Hin & Ho). exists t. split; [done|].
    by destruct Ho as [-> | ->].
Qed.

Lemma can_complete_true (self : Job.t) (db : DB) :
  can_complete self db = true ↔
  ∀ k t, Job.pk self = Some k → t ∈ tasks_of k db →
         JobTask.status t = TaskStatus.completed.
Proof.
  destruct (can_complete self db) eqn:E.
  - split; [|done]. intros _ k t Hk Hin.
    destruct (JobTask.status t) eqn:Hs; [| |done]; exfalso;
      apply not_false_iff_true in E; apply E, can_complete_false; eauto 8.
  - split; [done|]. intros H. apply can_complete_false in E
      as (k & t & Hk & Hin & Ho).
    rewrite (H k t Hk Hin) in Ho. naive_solver.
Qed.

(** ** [Job.save] and the job actions, run *)

Lemma can_complete_pk (a b : Job.t) (db1 db2 : DB) :
  Job.pk a = Job.pk b → job_tasks db1 = job_tasks db2 →
  can_complete a db1 = can_complete b db2.
Proof.
  unfold can_complete, tasks_of, JobTask_rows. by intros -> ->.
Qed.

Lemma Job_save_run cf now (self : Job.t) (db : DB) :
  Job_save cf now self db =
    if bool_decide (Job.status self = JobStatus.completed)
       && negb (can_complete self db)
    then (Err (ModelValidationError (cf self db ++ [incomplete_msg])), db)
    else match cf self db with
         | [] => Job_write now self db
         | errors => (Err (ModelValidationError errors), db)
         end.
Proof.
  unfold Job_save, full_clean, clean. run.
  destruct (_ && _).
  - by destruct (cf self db).
  - rewrite app_nil_r. by destruct (cf self db).
Qed.

Lemma Job_write_pk now (self : Job.t) (k : positive) (db : DB) :
  Job.pk self = Some k →
  Job_write now self db =
    (Ok (Job.set_updated_at now self),
     with_jobs (<[k := Job.set_updated_at now self]> (jobs db)) db).
Proof. unfold Job_write. by intros ->. Qed.

Lemma JobViewSet_complete_run cf now request pk db job :
  JobViewSet_get_object request pk db = (Ok job, db) →
  JobViewSet_complete cf now request pk db =
    if negb (can_complete job db)
    then (Err (BadRequest "error" incomplete_msg), db)
    else match cf (Job.set_status JobStatus.completed job) db with
         | [] =>
             (Ok (completed_job now job),
              with_job_change_logs
                (job_change_logs db
                 ++ [completed_entry now pk (Request.user request)])
                (with_jobs (<[pk := completed_job now job]> (jobs db)) db))
         | errors => (Err (ModelValidationError errors), db)
         end.
Proof.
  intros Hget.
  destruct (JobViewSet_get_object_inv _ _ _ _ _ Hget) as [_ Hjob].
  destruct (Hjob job eq_refl) as (Hpk & _ & _).
  unfold JobViewSet_complete.
  rewrite (bind_ok _ _ _ _ _ (JobViewSet_check_permissions_ok request
             "complete" db ltac:(done))).
  rewrite (bind_ok _ _ _ _ _ Hget).
  unfold get_db at 1. unfold mbind at 1, M_bind at 1, bind at 1.
  destruct (can_complete job db) eqn:Hc; simpl; [|done].
  unfold mbind at 1, M_bind at 1, bind at 1.
  rewrite Job_save_run.
  rewrite (can_complete_pk (Job.set_status JobStatus.completed job) job db db)
    by done.
  rewrite Hc, andb_false_r.
  destruct (cf _ db); [|done].
  rewrite (Job_write_pk _ _ pk) by done.
  unfold log_for, completed_job. simpl. rewrite Hpk. by run.
Qed.

Lemma JobStatus_str_text (s : JobStatus.t) : JobStatus.str s = status_text s.
Proof. by destruct s. Qed.

Lemma username_json_or_null (fk : option positive) (db : DB) :
  username_json fk db = username_or_null fk db.
Proof. unfold username_json, username_or_null. by destruct fk. Qed.

Lemma updated_changes_nil (old job : Job.t) (db : DB) :
  updated_changes (Job.status old) (Job.assigned_to old) job db = [] ↔
  Job.status old = Job.status job ∧ Job.assigned_to old = Job.assigned_to job.
Proof.
  unfold updated_changes. repeat case_bool_decide; naive_solver.
Qed.

(** ** The fields of a job update *)

Lemma run_field_inv {A B} partial required name (data : option A)
    (run_validation : A → validated B) (v : option B) :
  run_field partial required name data run_validation = (v, []) →
  match data with
  | None => v = None
  | Some a => ∃ b, run_validation a = Valid b ∧ v = Some b
  end.
Proof.
  unfold run_field. destruct data as [a|].
  - destruct (run_validation a) as [b|messages]; intros [= <-]; eauto.
  - by intros [= <- _].
Qed.

Lemma CharField_run_validation_Valid max_length data value :
  CharField_run_validation max_length data = Valid value →
  value = strip data ∧ value ≠ "".
Proof.
  unfold CharField_run_validation.
  destruct (bool_decide (data = "") || bool_decide (strip data = "")) eqn:Hb;
    [done|].
  apply orb_false_iff in Hb as [_ Hb%bool_decide_eq_false].
  destruct (_ ++ _); [|done]. by intros [= <-].
Qed.

Lemma has_null_character_false (s : string) :
  has_null_character s = false ↔ ∀ i, String.get i s ≠ Some Ascii.zero.
Proof.
  induction s as [|c s IH]; simpl; [done|].
  rewrite orb_false_iff, IH, N.eqb_neq. split.
  - intros [Hc Hs] [|i]; simpl; [|done].
    intros [= ->]. by apply Hc.
  - intros H. split.
    + intros Hc. apply (H 0%nat). simpl. f_equal.
      rewrite <- (ascii_N_embedding c), Hc. done.
    + intros i. apply (H (S i)).
  Qed.

Lemma CharField_run_validation_spec max_length data value :
  CharField_run_validation max_length data = Valid value ↔
  text_valid max_length data ∧ value = strip data.
Proof.
  unfold CharField_run_validation, text_valid.
  rewrite <- has_null_character_false.
  destruct (bool_decide (data = "") || bool_decide (strip data = "")) eqn:Hb.
  - split; [done|]. intros [(Hne & _) _].
    apply orb_true_iff in Hb as [Hb|Hb]; apply bool_decide_eq_true in Hb;
      [|done].
    subst data. by destruct Hne.
  - apply orb_false_iff in Hb as [_ Hne%bool_decide_eq_false].
    destruct (has_null_character (strip data)) eqn:Hnull.
    + split; [by destruct (match max_length with Some _ => _ | None => _ end)|].
      by intros [(_ & _ & ?) _].
    + rewrite app_nil_r. destruct max_length as [n|].
      * case_bool_decide as Hlen.
        -- split; [done|]. intros [(_ & Hmax & _) _].
           specialize (Hmax n eq_refl). lia.
        -- split; [intros [= <-]|by intros [_ ->]].
           repeat split; try done. intros ? [= <-]. lia.
      * split; [intros [= <-]|by intros [_ ->]].
        repeat split; done.
Qed.

Lemma run_field_ok {A B} partial required name (data : option A)
    (run_validation : A → validated B) (f : A → B) :
  (∀ a, data = Some a → run_validation a = Valid (f a)) →
  (data = None → required && negb partial = false) →
  run_field partial required name data run_validation = (f <$> data, []).
Proof.
  unfold run_field. intros Hrun Hnone. destruct data as [a|]; simpl.
  - by rewrite (Hrun a eq_refl).
  - by rewrite (Hnone eq_refl).
Qed.

Lemma run_field_sent {A B} partial required name (data : option A)
    (run_validation : A → validated B) (v : option B) :
  run_field partial required name data run_validation = (v, []) →
  data = None → required && negb partial = false.
Proof.
  unfold run_field. intros Hrun ->.
  destruct (required && negb partial); [done|done].
Qed.

Lemma partial_PATCH (request : Request.t) :
  partial request = true ↔ Request.method request = Method.PATCH.
Proof. apply bool_decide_eq_true. Qed.

(** What passed the fields: the text fields stripped, a valid assignee,
    everything else as it was sent. *)
Lemma to_internal_value_Ok partial (data : JobPatch.t) (db : DB) attrs :
  JobUpdateSerializer.to_internal_value partial data db = Ok attrs →
  JobPatch.title attrs = strip <$> JobPatch.title data
  ∧ JobPatch.description attrs = strip <$> JobPatch.description data
  ∧ JobPatch.client_name attrs = strip <$> JobPatch.client_name data
  ∧ JobPatch.assigned_to_id attrs = JobPatch.assigned_to_id data
  ∧ JobUpdateSerializer.assigned_to_id_valid (JobPatch.assigned_to_id data) db
    = true
  ∧ JobPatch.status attrs = JobPatch.status data
  ∧ JobPatch.priority attrs = JobPatch.priority data
  ∧ JobPatch.scheduled_date attrs = JobPatch.scheduled_date data.
Proof.
  unfold JobUpdateSerializer.to_internal_value.
  destruct (run_field partial true "title" _ _) as [title e1] eqn:H1.
  destruct (run_field partial true "description" _ _) as [description e2] eqn:H2.
  destruct (run_field partial true "client_name" _ _) as [client_name e3] eqn:H3.
  destruct (run_field partial false "assigned_to_id" _ _) as [assigned e4] eqn:H4.
  destruct (run_field partial false "status" _ _) as [status e5] eqn:H5.
  destruct (run_field partial false "priority" _ _) as [priority e6] eqn:H6.
  destruct (run_field partial true "scheduled_date" _ _) as [scheduled e7] eqn:H7.
  destruct (e1 ++ _) eqn:Happ; [|done]. intros [= <-]. simpl.
  repeat (apply app_nil in Happ as [-> Happ]). subst e7.
  apply run_field_inv in H1, H2, H3, H4, H5, H6, H7.
  repeat split.
  - destruct (JobPatch.title data); [|done].
    destruct H1 as (b & [-> _]%CharField_run_validation_Valid & ->). done.
  - destruct (JobPatch.description data); [|done].
    destruct H2 as (b & [-> _]%CharField_run_validation_Valid & ->). done.
  - destruct (JobPatch.client_name data); [|done].
    destruct H3 as (b & [-> _]%CharField_run_validation_Valid & ->). done.
  - destruct (JobPatch.assigned_to_id data) as [[u|]|]; [| |done].
    + destruct H4 as (b & Hv & ->).
      unfold JobUpdateSerializer.assigned_to_id_run_validation in Hv.
      destruct (JobUpdateSerializer.assigned_to_id_valid (Some (Some u)) db);
        [|done].
      by injection Hv as <-.
    + destruct H4 as (b & Hv & ->). by injection Hv as <-.
  - destruct (JobPatch.assigned_to_id data) as [[u|]|]; [|done|done].
    destruct H4 as (b & Hv & ->).
    unfold JobUpdateSerializer.assigned_to_id_run_validation in Hv.
    by destruct (JobUpdateSerializer.assigned_to_id_valid (Some (Some u)) db).
  - destruct (JobPatch.status data); [|done].
    by destruct H5 as (b & [= <-] & ->).
  - destruct (JobPatch.priority data); [|done].
    by destruct H6 as (b & [= <-] & ->).
  - destruct (JobPatch.scheduled_date data); [|done].
    by destruct H7 as (b & [= <-] & ->).
Qed.

Lemma assigned_to_id_valid_spec (u : positive) (db : DB) :
  JobUpdateSerializer.assigned_to_id_valid (Some (Some u)) db = true ↔
  ∃ usr, users db !! u = Some usr
         ∧ User.role usr = Role.technician
         ∧ User.is_active usr = true.
Proof.
  unfold JobUpdateSerializer.assigned_to_id_valid.
  destruct (users db !! u) as [usr|]; [|naive_solver].
  rewrite andb_true_iff, bool_decide_eq_true. naive_solver.
Qed.

(** The fields pass exactly the valid patches, and hand on the patch with
    its texts trimmed. *)
Lemma to_internal_value_valid request (data : JobPatch.t) (db : DB) :
  patch_fields_valid request data db →
  JobUpdateSerializer.to_internal_value (partial request) data db
  = Ok (trimmed data).
Proof.
  intros (Ht & Hd & Hc & Ha & Hsent).
  assert (Hp : partial request = true
               ∨ (is_Some (JobPatch.title data)
                  ∧ is_Some (JobPatch.description data)
                  ∧ is_Some (JobPatch.client_name data)
                  ∧ is_Some (JobPatch.scheduled_date data))).
  { destruct Hsent as [?|?]; [left; by apply partial_PATCH|by right]. }
  assert (Hnone : ∀ {A} (field : option A),
            (partial request = true ∨ is_Some field) →
            field = None → true && negb (partial request) = false).
  { intros A field [->|[x ->]] Hn; done. }
  unfold JobUpdateSerializer.to_internal_value.
  rewrite (run_field_ok _ true "title" _ _ strip).
  2:{ intros a Ha'. apply CharField_run_validation_spec. auto. }
  2:{ apply Hnone. destruct Hp as [?|(? & _)]; auto. }
  rewrite (run_field_ok _ true "description" _ _ strip).
  2:{ intros a Ha'. apply CharField_run_validation_spec. auto. }
  2:{ apply Hnone. destruct Hp as [?|(_ & ? & _)]; auto. }
  rewrite (run_field_ok _ true "client_name" _ _ strip).
  2:{ intros a Ha'. apply CharField_run_validation_spec. auto. }
  2:{ apply Hnone. destruct Hp as [?|(_ & _ & ? & _)]; auto. }
  rewrite (run_field_ok _ false "assigned_to_id" _ _ id).
  2:{ intros [u|] Ha'; [|done].
      unfold JobUpdateSerializer.assigned_to_id_run_validation.
      by rewrite (proj2 (assigned_to_id_valid_spec u db) (Ha u Ha')). }
  2:{ done. }
  rewrite (run_field_ok _ false "status" _ _ id) by done.
  rewrite (run_field_ok _ false "priority" _ _ id) by done.
  rewrite (run_field_ok _ true "scheduled_date" _ _ id).
  2:{ done. }
  2:{ apply Hnone. destruct Hp as [?|(_ & _ & _ & ?)]; auto. }
  simpl. unfold trimmed. by rewrite !option_fmap_id.
Qed.

Lemma to_internal_value_inv request (data : JobPatch.t) (db : DB) attrs :
  JobUpdateSerializer.to_internal_value (partial request) data db = Ok attrs →
  patch_fields_valid request data db ∧ attrs = trimmed data.
Proof.
  intros Hok.
  destruct (to_internal_value_Ok _ _ _ _ Hok)
    as (Et & Ed & Ec & Ea & Hv & Es & Ep & Esd).
  split.
  2:{ destruct attrs. simpl in *. unfold trimmed. by subst. }
  revert Hok. unfold JobUpdateSerializer.to_internal_value.
  destruct (run_field _ true "title" _ _) as [title e1] eqn:H1.
  destruct (run_field _ true "description" _ _) as [description e2] eqn:H2.
  destruct (run_field _ true "client_name" _ _) as [client_name e3] eqn:H3.
  destruct (run_field _ false "assigned_to_id" _ _) as [assigned e4] eqn:H4.
  destruct (run_field _ false "status" _ _) as [status e5] eqn:H5.
  destruct (run_field _ false "priority" _ _) as [priority e6] eqn:H6.
  destruct (run_field _ true "scheduled_date" _ _) as [scheduled e7] eqn:H7.
  destruct (e1 ++ _) eqn:Happ; [|done]. intros _.
  repeat (apply app_nil in Happ as [-> Happ]). subst e7.
  pose proof (run_field_sent _ _ _ _ _ _ H1) as S1.
  pose proof (run_field_sent _ _ _ _ _ _ H2) as S2.
  pose proof (run_field_sent _ _ _ _ _ _ H3) as S3.
  pose proof (run_field_sent _ _ _ _ _ _ H7) as S7.
  apply run_field_inv in H1, H2, H3.
  split; [|split; [|split; [|split]]].
  - intros s Hs. rewrite Hs in H1. destruct H1 as (b & Hb & _).
    by apply CharField_run_validation_spec in Hb as [? _].
  - intros s Hs. rewrite Hs in H2. destruct H2 as (b & Hb & _).
    by apply CharField_run_validation_spec in Hb as [? _].
  - intros s Hs. rewrite Hs in H3. destruct H3 as (b & Hb & _).
    by apply CharField_run_validation_spec in Hb as [? _].
  - intros u Hu. apply assigned_to_id_valid_spec. by rewrite Hu in Hv.
  - destruct (partial request) eqn:Hp; [left; by apply partial_PATCH|].
    right.
    destruct (JobPatch.title data); [|by specialize (S1 eq_refl)].
    destruct (JobPatch.description data); [|by specialize (S2 eq_refl)].
    destruct (JobPatch.client_name data); [|by specialize (S3 eq_refl)].
    destruct (JobPatch.scheduled_date data); [|by specialize (S7 eq_refl)].
    eauto.
Qed.

(** The fields raise nothing but the errors of the fields. *)
Lemma to_internal_value_Err partial (data : JobPatch.t) (db : DB) e :
  JobUpdateSerializer.to_internal_value partial data db = Err e →
  ∃ errors, e = FieldErrors errors ∧ errors ≠ [].
Proof.
  unfold JobUpdateSerializer.to_internal_value.
  repeat (destruct (run_field _ _ _ _ _) as [? ?]).
  destruct (_ ++ _) eqn:Happ; [done|]. intros [= <-]. eauto.
Qed.

Lemma to_internal_value_invalid request (data : JobPatch.t) (db : DB) :
  ¬ patch_fields_valid request data db →
  ∃ errors, errors ≠ []
            ∧ JobUpdateSerializer.to_internal_value (partial request) data db
              = Err (FieldErrors errors).
Proof.
  intros Hinvalid.
  destruct (JobUpdateSerializer.to_internal_value (partial request) data db)
    as [attrs|e] eqn:Hr.
  - by apply to_internal_value_inv in Hr as [? _].
  - apply to_internal_value_Err in Hr as (errors & -> & ?). eauto.
Qed.

Lemma JobViewSet_update_run cf now request pk data db instance :
  JobViewSet_get_object request pk db = (Ok instance, db) →
  JobViewSet_update cf now request pk data db =
    match JobUpdateSerializer.to_internal_value (partial request) data db with
    | Err e => (Err e, db)
    | Ok attrs =>
        let job0 := JobUpdateSerializer.update instance attrs in
        let job := Job.set_updated_at now job0 in
        let db1 := with_jobs (<[pk := job]> (jobs db)) db in
        if bool_decide (default (Job.status instance) (JobPatch.status attrs)
                        = JobStatus.completed)
           && negb (can_complete instance db)
        then (Err (BadRequest "status" incomplete_msg), db)
        else match cf job0 db with
             | (_ :: _) as errors => (Err (ModelValidationError errors), db)
             | [] =>
                 match updated_changes (Job.status instance)
                         (Job.assigned_to instance) job db with
                 | [] => (Ok job, db1)
                 | changes =>
                     (Ok job,
                      with_job_change_logs
                        (job_change_logs db
                         ++ [JobChangeLog.mk pk
                               (Some (User.pk (Request.user request)))
                               "updated" (JObj changes) now]) db1)
                 end
             end
    end.
Proof.
  intros Hget.
  destruct (JobViewSet_get_object_inv _ _ _ _ _ Hget) as [_ Hjob].
  destruct (Hjob instance eq_refl) as (Hpk & _ & _).
  unfold JobViewSet_update.
  rewrite (bind_ok _ _ _ _ _ (JobViewSet_check_permissions_ok request
             "update" db ltac:(done))).
  rewrite (bind_ok _ _ _ _ _ Hget).
  unfold JobUpdateSerializer.is_valid, JobUpdateSerializer.validate.
  unfold get_db, lift.
  unfold mbind at 1, M_bind at 1, bind at 1.
  unfold mbind at 1, M_bind at 1, bind at 1.
  unfold mbind at 1, M_bind at 1, bind at 1.
  destruct (JobUpdateSerializer.to_internal_value _ data db) as [attrs|e];
    [|done].
  unfold mbind at 1, M_bind at 1, bind at 1.
  cbv zeta.
  set (job0 := JobUpdateSerializer.update instance attrs).
  set (job := Job.set_updated_at now job0).
  set (db1 := with_jobs (<[pk := job]> (jobs db)) db).
  destruct (_ && _) eqn:Hgate; [done|]. simpl.
  unfold JobViewSet_perform_update.
  rewrite (bind_ok _ _ _ _ _ Hget).
  unfold mbind at 1, M_bind at 1, bind at 1.
  rewrite Job_save_run. fold job0.
  assert (Hc0 : bool_decide (Job.status job0 = JobStatus.completed)
                && negb (can_complete job0 db) = false).
  { rewrite (can_complete_pk job0 instance db db) by done. exact Hgate. }
  rewrite Hc0. destruct (cf job0 db); simpl; [|done].
  rewrite (Job_write_pk _ _ pk) by done. fold job. fold db1.
  unfold get_db.
  unfold mbind at 1, M_bind at 1, bind at 1.
  assert (Hch : updated_changes (Job.status instance)
                  (Job.assigned_to instance) job db1
                = updated_changes (Job.status instance)
                    (Job.assigned_to instance) job db) by done.
  rewrite Hch.
  destruct (updated_changes _ _ job db) as [|c cs]; [by run|].
  unfold log_for. simpl. rewrite Hpk. by run.
Qed.

(** ** The task update action, run *)

Lemma JobTaskSerializer_is_valid_run (data : TaskPatch.t) (db : DB) :
  JobTaskSerializer.is_valid data db =
    if negb (task_job_ok data db)
    then (Err (BadRequest "job" "Invalid pk - object does not exist."), db)
    else if negb (task_order_ok data)
    then (Err (BadRequest "order"
                 "Ensure this value is greater than or equal to 0."), db)
    else if negb (JobTaskSerializer.equipment_valid
                    (default [] (TaskPatch.required_equipment_ids data)) db)
    then (Err (BadRequest "required_equipment_ids"
                 "Invalid pk - object does not exist."), db)
    else (Ok data, db).
Proof.
  unfold JobTaskSerializer.is_valid, task_job_ok, task_order_ok,
    JobTaskSerializer.order_run_validation, JobTaskSerializer.validate_order.
  run. destruct (TaskPatch.job data) as [k|]; simpl.
  - destruct (bool_decide (is_Some (jobs db !! k))); simpl; [|done].
    destruct (TaskPatch.order data) as [v|]; simpl.
    + destruct (bool_decide (v < 0)) eqn:Hneg; run; [done|]. rewrite Hneg.
      by destruct (JobTaskSerializer.equipment_valid _ db).
    + by destruct (JobTaskSerializer.equipment_valid _ db).
  - destruct (TaskPatch.order data) as [v|]; simpl.
    + destruct (bool_decide (v < 0)) eqn:Hneg; run; [done|]. rewrite Hneg.
      by destruct (JobTaskSerializer.equipment_valid _ db).
    + by destruct (JobTaskSerializer.equipment_valid _ db).
Qed.

Lemma JobTask_pre_save_pk now (t : JobTask.t) :
  JobTask.pk (JobTask_pre_save now t) = JobTask.pk t.
Proof. unfold JobTask_pre_save. by repeat case_match. Qed.

Lemma JobTaskViewSet_update_run now request pk data db t :
  JobTaskViewSet.get_object request pk db = (Ok t, db) →
  let task := updated_task now t data in
  let db1 := with_job_tasks (<[pk := task]> (job_tasks db)) db in
  JobTaskViewSet_update now request pk data db =
    match JobTaskSerializer.is_valid data db with
    | (Err e, _) => (Err e, db)
    | (Ok _, _) =>
        if bool_decide (JobTask.status t ≠ JobTask.status task)
        then (Ok task,
              with_job_change_logs
                (job_change_logs db
                 ++ [task_updated_entry now (Request.user request)
                       (JobTask.status t) task]) db1)
        else (Ok task, db1)
    end.
Proof.
  intros Hget task db1.
  destruct (JobTaskViewSet_get_object_inv _ _ _ _ _ Hget) as [_ Ht].
  destruct (Ht t eq_refl) as (Hpk & _ & _).
  unfold JobTaskViewSet_update.
  rewrite (bind_ok _ _ _ _ _ Hget).
  unfold mbind at 1, M_bind at 1, bind at 1.
  rewrite JobTaskSerializer_is_valid_run.
  repeat (destruct (negb _); [done|]).
  unfold JobTaskViewSet_perform_update.
  rewrite (bind_ok _ _ _ _ _ Hget).
  unfold JobTaskSerializer.save, JobTask_save, JobTask_write.
  rewrite JobTask_pre_save_pk. simpl. rewrite Hpk.
  unfold mbind at 1, M_bind at 1, bind at 1.
  fold (updated_task now t data). fold task. fold db1.
  change (JobTask.status task)
    with (JobTask.status (JobTask_pre_save now (JobTaskSerializer.update t data))).
  destruct (bool_decide (JobTask.status t ≠ _)); by run.
Qed.

(** ** The job actions *)


(** C5, as the code has it: an update whose patch sets the status to
    completed on a job that cannot be completed is refused and writes
    nothing: with the incomplete-tasks error when every field of the patch
    is valid, with the errors of the fields otherwise, since the fields are
    validated first. No refused update writes anything. A successful
    update stores the job with the validated fields and appends one log
    entry with action [updated] exactly when [status] or [assigned_to]
    changed, the entry holding [{old, new}] for each of the two that
    changed, [status] first, and nothing else. *)
Theorem JobViewSet_update_spec
    (clean_fields : Job.t → DB → list string) (now : datetime)
    (request : Request.t) (pk : positive) (data : JobPatch.t)
    (db : DB) (instance : Job.t) :
  JobViewSet_get_object request pk db = (Ok instance, db) →
  (JobPatch.status data = Some JobStatus.completed →
   can_complete instance db = false →
   (patch_fields_valid request data db →
    JobViewSet_update clean_fields now request pk data db
    = (Err (BadRequest "status" incomplete_msg), db))
   ∧ (¬ patch_fields_valid request data db →
      ∃ errors, errors ≠ []
                ∧ JobViewSet_update clean_fields now request pk data db
                  = (Err (FieldErrors errors), db)))
  ∧ (∀ e db', JobViewSet_update clean_fields now request pk data db
              = (Err e, db') → db' = db)
  ∧ (∀ job db', JobViewSet_update clean_fields now request pk data db
                = (Ok job, db') →
       patch_fields_valid request data db
       ∧ job = Job.set_updated_at now
                 (JobUpdateSerializer.update instance (trimmed data))
       ∧ jobs db' = <[pk := job]> (jobs db)
       ∧ job_tasks db' = job_tasks db
       ∧ job_change_logs db' =
           job_change_logs db
           ++ match
                (if decide (Job.status instance = Job.status job) then []
                 else [("status",
                        JObj [("old", JStr (status_text (Job.status instance)));
                              ("new", JStr (status_text (Job.status job)))])])
                ++ (if decide (Job.assigned_to instance = Job.assigned_to job)
                    then []
                    else [("assigned_to",
                           JObj [("old", username_or_null
                                           (Job.assigned_to instance) db);
                                 ("new", username_or_null
                                           (Job.assigned_to job) db)])])
              with
              | [] => []
              | changes =>
                  [JobChangeLog.mk pk (Some (User.pk (Request.user request)))
                     "updated" (JObj changes) now]
              end).
Proof.
  intros Hget.
  rewrite (JobViewSet_update_run clean_fields now request pk data db
             instance Hget).
  destruct (JobUpdateSerializer.to_internal_value _ data db) as [attrs|e0]
    eqn:Hfields.
  2:{ split; [|split].
      - intros _ _. split.
        + intros Hvalid.
          rewrite (to_internal_value_valid _ _ _ Hvalid) in Hfields.
          discriminate.
        + intros Hinvalid.
          destruct (to_internal_value_invalid _ _ _ Hinvalid)
            as (errors & Hne & Herr).
          rewrite Hfields in Herr. injection Herr as ->. eauto.
      - by intros e db' [= _ <-].
      - by intros job db' [=]. }
  destruct (to_internal_value_inv _ _ _ _ Hfields) as [Hvalid ->].
  cbv zeta.
  set (job := Job.set_updated_at now
                (JobUpdateSerializer.update instance (trimmed data))).
  split; [|split].
  - intros Hst Hc. split; [|done]. intros _.
    unfold trimmed at 1. simpl. rewrite Hst, Hc. done.
  - intros e db'.
    repeat (case_match; try (by intros [= _ <-])); by intros [=].
  - intros job' db'.
    destruct (_ && _); [by intros [=]|].
    destruct (clean_fields _ db); [|by intros [=]].
    assert (Hch : updated_changes (Job.status instance)
                    (Job.assigned_to instance) job db
                  = (if decide (Job.status instance = Job.status job) then []
                     else [("status",
                            JObj [("old", JStr (status_text
                                                  (Job.status instance)));
                                  ("new", JStr (status_text
                                                  (Job.status job)))])])
                    ++ (if decide (Job.assigned_to instance
                                   = Job.assigned_to job)
                        then []
                        else [("assigned_to",
                               JObj [("old", username_or_null
                                               (Job.assigned_to instance) db);
                                     ("new", username_or_null
                                               (Job.assigned_to job) db)])])).
    { unfold updated_changes, old_new.
      rewrite !JobStatus_str_text, !username_json_or_null.
      repeat case_bool_decide; repeat case_decide; done. }
    rewrite Hch.
    destruct (_ ++ _) as [|c cs] eqn:Hchanges;
      intros [= <- <-]; (split; [done|]); (split; [done|]);
      (split; [done|]); (split; [done|]);
      rewrite Hchanges; simpl; by rewrite ?app_nil_r.
Qed.

(** C1, as the code has it: a save of a job with status completed and a
    key is refused with a validation error while one of the job's tasks is
    pending or in progress, and nothing is written; so right after a
    successful save of a completed job all its tasks are completed. A job
    without a key, or with no task, passes the gate. Both the [complete]
    action and an update that sets the status are refused in that case.
    (Later writes to the job's tasks are not gated by the job's status.) *)
Theorem Job_save_completed_gate
    (clean_fields : Job.t → DB → list string) (now : datetime)
    (self : Job.t) (db : DB) :
  Job.status self = JobStatus.completed →
  (∀ k t, Job.pk self = Some k → t ∈ tasks_of k db →
     JobTask.status t = TaskStatus.pending
     ∨ JobTask.status t = TaskStatus.in_progress →
     Job_save clean_fields now self db
     = (Err (ModelValidationError (clean_fields self db ++ [incomplete_msg])),
        db))
  ∧ (∀ k job' db', Job.pk self = Some k →
       Job_save clean_fields now self db = (Ok job', db') →
       jobs db' !! k = Some job'
       ∧ Job.status job' = JobStatus.completed
       ∧ ∀ t, t ∈ tasks_of k db' → JobTask.status t = TaskStatus.completed)
  ∧ (Job.pk self = None ∨ (∃ k, Job.pk self = Some k ∧ tasks_of k db = []) →
     clean_fields self db = [] →
     ∃ job' db', Job_save clean_fields now self db = (Ok job', db'))
  ∧ (∀ request k job t data,
       JobViewSet_get_object request k db = (Ok job, db) →
       t ∈ tasks_of k db →
       JobTask.status t = TaskStatus.pending
       ∨ JobTask.status t = TaskStatus.in_progress →
       JobPatch.status data = Some JobStatus.completed →
       (∃ e, JobViewSet_complete clean_fields now request k db = (Err e, db))
       ∧ (∃ e, JobViewSet_update clean_fields now request k data db
               = (Err e, db))).
Proof.
  intros Hst. rewrite Job_save_run, Hst, bool_decide_eq_true_2 by done.
  simpl. split; [|split; [|split]].
  - intros k t Hk Hin Ho.
    assert (Hc : can_complete self db = false).
    { apply can_complete_false. eauto 8. }
    by rewrite Hc.
  - intros k job' db' Hk.
    destruct (can_complete self db) eqn:Hc; simpl; [|by intros [=]].
    destruct (clean_fields self db); [|by intros [=]].
    rewrite (Job_write_pk _ _ k) by done. intros [= <- <-]. simpl.
    rewrite lookup_insert_eq. split; [done|]. split; [done|].
    intros t Hin. by apply (proj1 (can_complete_true self db) Hc k t).
  - intros Hvac Hcf.
    assert (Hc : can_complete self db = true).
    { destruct Hvac as [Hn | (k & Hk & Hnil)].
      - unfold can_complete. by rewrite Hn.
      - apply can_complete_true. intros k' t Hk' Hin.
        rewrite Hk in Hk'. injection Hk' as <-. rewrite Hnil in Hin.
        by apply elem_of_nil in Hin. }
    rewrite Hc, Hcf. simpl. unfold Job_write.
    destruct (Job.pk self); eauto.
  - intros request k job t data Hget Hin Ho Hd.
    destruct (JobViewSet_get_object_inv _ _ _ _ _ Hget) as [_ Hjob].
    destruct (Hjob job eq_refl) as (Hpk & _ & _).
    assert (Hc : can_complete job db = false).
    { apply can_complete_false. eauto 8. }
    split.
    + rewrite (JobViewSet_complete_run _ _ _ _ _ _ Hget), Hc. simpl. eauto.
    + rewrite (JobViewSet_update_run clean_fields now request k data db
                 job Hget).
      destruct (JobUpdateSerializer.to_internal_value _ data db) as [attrs|e]
        eqn:Hfields; [|eauto].
      destruct (to_internal_value_Ok _ _ _ _ Hfields)
        as (_ & _ & _ & _ & _ & Hstatus & _).
      cbv zeta. rewrite Hstatus, Hd, Hc. simpl. eauto.
Qed.

(** ** The task update action *)

Lemma JobTask_pre_save_consistent now (t : JobTask.t) :
  completed_at_consistent (JobTask_pre_save now t).
Proof.
  unfold completed_at_consistent.
  rewrite JobTask_pre_save_completed_at, JobTask_pre_save_status.
  destruct (decide _) as [Hs|Hs]; [|done].
  by destruct (JobTask.completed_at t).
Qed.

Lemma JobTask_pre_save_id now (t : JobTask.t) :
  completed_at_consistent t → JobTask_pre_save now t = t.
Proof.
  unfold completed_at_consistent, JobTask_pre_save. intros [H1 H2].
  repeat case_bool_decide; simpl; try done; naive_solver.
Qed.

(** Every stored task is consistent once it went through a save; task
    updates keep the table that way. *)
Lemma JobTaskViewSet_update_consistent now request pk data db r db' :
  (∀ k row, job_tasks db !! k = Some row → completed_at_consistent row) →
  JobTaskViewSet_update now request pk data db = (r, db') →
  ∀ k row, job_tasks db' !! k = Some row → completed_at_consistent row.
Proof.
  intros Hinv.
  destruct (JobTaskViewSet.get_object request pk db) as [[t|e] db0] eqn:Hget;
    destruct (JobTaskViewSet_get_object_inv _ _ _ _ _ Hget) as [-> _].
  - rewrite (JobTaskViewSet_update_run _ _ _ _ _ _ Hget).
    destruct (JobTaskSerializer.is_valid data db) as [[a|e] ?];
      [|by intros [= _ <-]].
    assert (Hnew : ∀ k row,
      <[pk := updated_task now t data]> (job_tasks db) !! k = Some row →
      completed_at_consistent row).
    { intros k row. rewrite lookup_insert. case_decide; [|by apply Hinv].
      intros [= <-]. apply (JobTask_pre_save_consistent now). }
    case_bool_decide; by intros [= _ <-].
  - unfold JobTaskViewSet_update. rewrite (bind_err _ _ _ _ _ Hget).
    by intros [= _ <-].
Qed.

(** C7: on a task the request may act on, an update that sends the task's
    current status appends no log entry and leaves [completed_at] (and the
    status) as stored, the stored task being as a save leaves it
    ([completed_at] set exactly when completed); any successful update appends one log entry with
    action [task_updated], on the task's job and holding the task's key and
    title and the old and new status, exactly when the status changed; a
    refused update writes nothing. *)
Theorem JobTaskViewSet_update_log
    (now : datetime) (request : Request.t) (pk : positive)
    (data : TaskPatch.t) (db : DB) (t : JobTask.t) :
  JobTaskViewSet.get_object request pk db = (Ok t, db) →
  (completed_at_consistent t →
   TaskPatch.status data = Some (JobTask.status t) →
   ∀ r db', JobTaskViewSet_update now request pk data db = (r, db') →
     job_change_logs db' = job_change_logs db
     ∧ ∃ row, job_tasks db' !! pk = Some row
              ∧ JobTask.status row = JobTask.status t
              ∧ JobTask.completed_at row = JobTask.completed_at t)
  ∧ (∀ task db', JobTaskViewSet_update now request pk data db = (Ok task, db') →
       job_tasks db' = <[pk := task]> (job_tasks db)
       ∧ ((JobTask.status t = JobTask.status task
           ∧ job_change_logs db' = job_change_logs db)
          ∨ (JobTask.status t ≠ JobTask.status task
             ∧ job_change_logs db' =
                 job_change_logs db
                 ++ [JobChangeLog.mk (JobTask.job task)
                       (Some (User.pk (Request.user request))) "task_updated"
                       (JObj [("task_id", JInt (Z.pos pk));
                              ("task_title", JStr (JobTask.title task));
                              ("old_status",
                               JStr (TaskStatus.str (JobTask.status t)));
                              ("new_status",
                               JStr (TaskStatus.str (JobTask.status task)))])
                       now])))
  ∧ (∀ e db', JobTaskViewSet_update now request pk data db = (Err e, db') →
       db' = db).
Proof.
  intros Hget.
  destruct (JobTaskViewSet_get_object_inv _ _ _ _ _ Hget) as [_ Ht].
  destruct (Ht t eq_refl) as (Hpk & Hrow & _).
  rewrite (JobTaskViewSet_update_run _ _ _ _ _ _ Hget).
  assert (Hpk' : JobTask.pk (updated_task now t data) = Some pk).
  { unfold updated_task. simpl. by rewrite JobTask_pre_save_pk. }
  split; [|split].
  - intros Hcons Hsame r db'.
    assert (Hst : JobTask.status (JobTaskSerializer.update t data)
                  = JobTask.status t) by (simpl; by rewrite Hsame).
    assert (Hca : JobTask.completed_at (JobTaskSerializer.update t data)
                  = JobTask.completed_at t) by done.
    assert (Hid : JobTask_pre_save now (JobTaskSerializer.update t data)
                  = JobTaskSerializer.update t data).
    { apply JobTask_pre_save_id. unfold completed_at_consistent.
      by rewrite Hst, Hca. }
    assert (Hst' : JobTask.status (updated_task now t data) = JobTask.status t).
    { unfold updated_task. by rewrite Hid. }
    assert (Hca' : JobTask.completed_at (updated_task now t data)
                   = JobTask.completed_at t).
    { unfold updated_task. by rewrite Hid. }
    destruct (JobTaskSerializer.is_valid data db) as [[a|e] ?].
    + rewrite bool_decide_eq_false_2 by (rewrite Hst'; auto).
      intros [= _ <-]. split; [done|]. simpl. rewrite lookup_insert_eq. eauto.
    + intros [= _ <-]. split; [done|].
      unfold JobTask_get in Hrow.
      destruct (job_tasks db !! pk) as [row|]; [|done].
      injection Hrow as <-. eauto.
  - intros task db'.
    destruct (JobTaskSerializer.is_valid data db) as [[a|e] ?];
      [|by intros [=]].
    case_bool_decide as Hch; intros [= <- <-]; (split; [done|]).
    + right. split; [done|]. simpl. unfold task_updated_entry,
        task_updated_changes. by rewrite Hpk'.
    + left. split; [|done].
      destruct (decide (JobTask.status t
                        = JobTask.status (updated_task now t data)));
        [done | by destruct Hch].
  - intros e db'.
    destruct (JobTaskSerializer.is_valid data db) as [[a|e0] ?];
      [case_bool_decide; by intros [=] | by intros [= _ <-]].
Qed.

(** * Instances of the theorems, and where the specification's invariants
      fail *)

(** C1, counterexample: from a database where the completed-jobs invariant
    holds, completing the job (its only task is completed) and then setting
    that task back to pending both succeed, and leave a completed job that
    owns a pending task. *)
Lemma completed_job_reopened_task :
  completed_jobs_closed db_completed_task
  ∧ (complete_then_reopen db_completed_task).1
    = Ok (JobTask.mk (Some 1%positive) 1 "Step" "Do it" TaskStatus.pending 1
            [] None 101 300)
  ∧ Job.status <$> jobs (complete_then_reopen db_completed_task).2 !! 1%positive
    = Some JobStatus.completed
  ∧ ¬ completed_jobs_closed (complete_then_reopen db_completed_task).2.
Proof.
  split; [|split; [|split]].
  - intros k j t Hk. simpl in Hk.
    apply lookup_singleton_Some in Hk as [<- <-]. done.
  - vm_compute. reflexivity.
  - vm_compute. reflexivity.
  - intros Hinv.
    specialize (Hinv 1%positive
      (Job.set_updated_at 200 (Job.set_status JobStatus.completed sample_job))
      (JobTask.mk (Some 1%positive) 1 "Step" "Do it" TaskStatus.pending 1
            [] None 101 300)).
    assert (Hk : jobs (complete_then_reopen db_completed_task).2 !! 1%positive
                 = Some (Job.set_updated_at 200
                           (Job.set_status JobStatus.completed sample_job)))
      by (vm_compute; reflexivity).
    specialize (Hinv Hk eq_refl).
    assert (Hin : JobTask.mk (Some 1%positive) 1 "Step" "Do it"
                    TaskStatus.pending 1 [] None 101 300
                  ∈ tasks_of 1 (complete_then_reopen db_completed_task).2)
      by (vm_compute; constructor).
    specialize (Hinv Hin). discriminate Hinv.
Qed.

(** C1, instance: saving the sample job as completed while its task is
    pending is refused. *)
Lemma Job_save_completed_gate_witness :
  Job_save all_fields_ok 200
    (Job.set_status JobStatus.completed sample_job) db_pending_task
  = (Err (ModelValidationError [incomplete_msg]), db_pending_task).
Proof.
  apply (proj1 (Job_save_completed_gate all_fields_ok 200
                  (Job.set_status JobStatus.completed sample_job)
                  db_pending_task eq_refl)
           1%positive (sample_task 1 TaskStatus.pending 1 None)).
  - reflexivity.
  - vm_compute. constructor.
  - left. reflexivity.
Defined.



(** C5, counterexample: carol sets the sample job, whose task is pending,
    to completed and blanks its title in the same patch; the answer is the
    error of the title, not the incomplete-tasks error. *)
Lemma update_with_blank_title :
  JobViewSet_get_object (Request.plain carol Method.PATCH) 1 db_pending_task
  = (Ok sample_job, db_pending_task)
  ∧ can_complete sample_job db_pending_task = false
  ∧ JobPatch.status blank_title_patch = Some JobStatus.completed
  ∧ JobViewSet_update Job_clean_fields 200 (Request.plain carol Method.PATCH)
      1 blank_title_patch db_pending_task
    = (Err (FieldErrors [("title", ["This field may not be blank."])]),
       db_pending_task).
Proof. repeat split; vm_compute; reflexivity. Qed.



(** C5, instance: carol, who created the job, cannot set it to completed
    while its task is pending, and can set it to in progress, which is
    stored and logged with the old and the new status. *)
Lemma JobViewSet_update_witness :
  JobViewSet_update Job_clean_fields 200 (Request.plain carol Method.PATCH) 1
    (JobPatch.only_status JobStatus.completed) db_pending_task
  = (Err (BadRequest "status" incomplete_msg), db_pending_task)
  ∧ ∃ job db',
      JobViewSet_update Job_clean_fields 200 (Request.plain carol Method.PATCH)
        1 (JobPatch.only_status JobStatus.in_progress) db_pending_task
      = (Ok job, db')
      ∧ Job.status job = JobStatus.in_progress
      ∧ jobs db' = <[1%positive := job]> (jobs db_pending_task)
      ∧ job_change_logs db' =
          [JobChangeLog.mk 1 (Some 3%positive) "updated"
             (JObj [("status", JObj [("old", JStr "pending");
                                     ("new", JStr "in_progress")])]) 200].
Proof.
  split.
  - destruct (proj1 (JobViewSet_update_spec Job_clean_fields 200
                       (Request.plain carol Method.PATCH) 1
                       (JobPatch.only_status JobStatus.completed)
                       db_pending_task sample_job
                       ltac:(vm_compute; reflexivity))
                eq_refl ltac:(vm_compute; reflexivity))
      as [Hrun _].
    apply Hrun.
    refine (proj1 (to_internal_value_inv _ _ _
                     (trimmed (JobPatch.only_status JobStatus.completed)) _)).
    vm_compute. reflexivity.
  - destruct (JobViewSet_update Job_clean_fields 200
                (Request.plain carol Method.PATCH) 1
                (JobPatch.only_status JobStatus.in_progress) db_pending_task)
      as [[job|e] db'] eqn:Hrun; [|by vm_compute in Hrun].
    destruct (proj2 (proj2 (JobViewSet_update_spec Job_clean_fields 200
                       (Request.plain carol Method.PATCH) 1
                       (JobPatch.only_status JobStatus.in_progress)
                       db_pending_task sample_job
                       ltac:(vm_compute; reflexivity))) job db' Hrun)
      as (_ & _ & Hjobs & _ & Hlogs).
    vm_compute in Hrun. injection Hrun as <- <-.
    eexists _, _. split; [reflexivity|]. split; [reflexivity|].
    split; [exact Hjobs|]. vm_compute. reflexivity.
Defined.

(** C7, instance: bob sends the pending task its own status; the log stays
    empty and the task keeps its status and its empty [completed_at]. *)
Lemma JobTaskViewSet_update_log_witness :
  job_change_logs
    (JobTaskViewSet_update 300 (Request.plain bob Method.PATCH) 1
       (TaskPatch.only_status TaskStatus.pending) db_pending_task).2
  = []
  ∧ ∃ row,
      job_tasks
        (JobTaskViewSet_update 300 (Request.plain bob Method.PATCH) 1
           (TaskPatch.only_status TaskStatus.pending) db_pending_task).2
        !! 1%positive = Some row
      ∧ JobTask.status row = TaskStatus.pending
      ∧ JobTask.completed_at row = None.
Proof.
  apply (proj1 (JobTaskViewSet_update_log 300
                  (Request.plain bob Method.PATCH) 1
                  (TaskPatch.only_status TaskStatus.pending) db_pending_task
                  (sample_task 1 TaskStatus.pending 1 None)
                  ltac:(vm_compute; reflexivity))
           ltac:(split; [by intros [] | discriminate])
           eq_refl
           (JobTaskViewSet_update 300 (Request.plain bob Method.PATCH) 1
              (TaskPatch.only_status TaskStatus.pending) db_pending_task).1).
  apply surjective_pairing.
Defined.

(** C4, instance: saving the pending sample task as completed at time 500
    stamps it with 500. *)
Lemma JobTask_save_completed_at_witness :
  ∃ k t',
    JobTask_save 500 (sample_task 1 TaskStatus.completed 1 None) db_pending_task
    = (Ok t', with_job_tasks (<[k := t']> (job_tasks db_pending_task))
                db_pending_task)
    ∧ JobTask.completed_at t' = Some 500.
Proof.
  destruct (JobTask_save_completed_at 500
              (sample_task 1 TaskStatus.completed 1 None) db_pending_task)
    as (k & t' & Hrun & _ & _ & Hset & _).
  exists k, t'. split; [exact Hrun|]. apply Hset. split; reflexivity.
Defined.

(** C6, instance: the day after its scheduled date the pending sample job
    is flagged by the sweep, which reports one job; the next run reports
    none. *)
Lemma check_overdue_jobs_witness :
  ∃ db',
    check_overdue_jobs next_day db_no_task
    = (Ok "Marked 1 jobs as overdue", db')
    ∧ Job.overdue <$> jobs db' !! 1%positive = Some true
    ∧ check_overdue_jobs next_day db' = (Ok "Marked 0 jobs as overdue", db').
Proof.
  destruct (check_overdue_jobs_spec next_day db_no_task)
    as (db' & _ & Hmsg & Hrows & _ & _ & _ & _ & Hagain & _).
  exists db'. split; [|split].
  - rewrite Hmsg. vm_compute. reflexivity.
  - rewrite Hrows. vm_compute. reflexivity.
  - exact Hagain.
Defined.



(** C10, instance: alice is saved as admin, then demoted to technician and
    saved twice more; she is still staff. *)
Lemma User_save_is_staff_witness :
  ∃ u', (User_save (User.set_is_staff false alice) db_no_task).1 = Ok u'
        ∧ User.is_staff u' = true
        ∧ User.is_staff (resave [Role.technician; Role.technician] u') = true.
Proof.
  destruct (User_save_is_staff (User.set_is_staff false alice) db_no_task)
    as (u' & Hrun & _ & Hstaff & Hkeeps).
  exists u'. split; [by rewrite Hrun|]. split.
  - exact Hstaff.
  - apply Hkeeps. reflexivity.
Defined.

(** * Further properties of the views and permissions *)

(** ** Who reaches which job *)

Lemma elem_of_job_queryset (request : Request.t) (db : DB) (j : Job.t) :
  j ∈ JobViewSet_get_queryset request db ↔
    j ∈ Job_rows db
    ∧ (User.role (Request.user request) = Role.technician →
       Job.assigned_to j = Some (User.pk (Request.user request)))
    ∧ (User.role (Request.user request) = Role.sales_agent →
       Job.created_by j = Some (User.pk (Request.user request)))
    ∧ (∀ s, Request.status request = Some s → s ≠ "" →
         JobStatus.str (Job.status j) = s)
    ∧ (∀ p, Request.priority request = Some p → p ≠ "" →
         Priority.str (Job.priority j) = p)
    ∧ (∀ u, Request.assigned_to request = Some u → Job.assigned_to j = Some u)
    ∧ (∀ b, Request.overdue request = Some b →
         Job.overdue j = bool_decide (lower b = "true"))
    ∧ (∀ d, Request.start_date request = Some d → d ≤ Job.scheduled_date j)
    ∧ (∀ d, Request.end_date request = Some d → Job.scheduled_date j ≤ d).
Proof.
  unfold JobViewSet_get_queryset. cbv zeta.
  rewrite !elem_of_filter_by, !elem_of_filter_by_str.
  repeat setoid_rewrite bool_decide_eq_true.
  assert (Hrole :
    j ∈ match User.role (Request.user request) with
        | Role.admin => Job_rows db
        | Role.technician =>
            List.filter (λ j, is_user (Job.assigned_to j) (Request.user request))
              (Job_rows db)
        | Role.sales_agent =>
            List.filter (λ j, is_user (Job.created_by j) (Request.user request))
              (Job_rows db)
        end
    ↔ j ∈ Job_rows db
      ∧ (User.role (Request.user request) = Role.technician →
         Job.assigned_to j = Some (User.pk (Request.user request)))
      ∧ (User.role (Request.user request) = Role.sales_agent →
         Job.created_by j = Some (User.pk (Request.user request)))).
  { unfold is_user. destruct (User.role (Request.user request));
      rewrite ?elem_of_List_filter, ?bool_decide_eq_true; naive_solver. }
  rewrite Hrole. naive_solver.
Qed.

(** X1: the job queryset holds, for a technician, only jobs assigned to
    that technician, for a sales agent only jobs that agent created, and
    for an admin every job, each time narrowed by the query parameters; an
    admin without parameters gets every job of the table. *)
Theorem JobViewSet_get_queryset_by_role
    (request : Request.t) (db : DB) (j : Job.t) :
  (j ∈ JobViewSet_get_queryset request db →
     j ∈ Job_rows db
     ∧ (User.role (Request.user request) = Role.technician →
        Job.assigned_to j = Some (User.pk (Request.user request)))
     ∧ (User.role (Request.user request) = Role.sales_agent →
        Job.created_by j = Some (User.pk (Request.user request))))
  ∧ (request = Request.plain (Request.user request) (Request.method request) →
     (j ∈ JobViewSet_get_queryset request db ↔
        j ∈ Job_rows db
        ∧ match User.role (Request.user request) with
          | Role.admin => True
          | Role.technician =>
              Job.assigned_to j = Some (User.pk (Request.user request))
          | Role.sales_agent =>
              Job.created_by j = Some (User.pk (Request.user request))
          end)).
Proof.
  split.
  - rewrite elem_of_job_queryset. naive_solver.
  - intros ->. rewrite elem_of_job_queryset. simpl.
    destruct (User.role _); naive_solver.
Qed.







(** ** Who reaches which task *)

Lemma JobTask_rows_pk_unique (db : DB) (t t' : JobTask.t) (k : positive) :
  t ∈ JobTask_rows db → t' ∈ JobTask_rows db →
  JobTask.pk t = Some k → JobTask.pk t' = Some k → t = t'.
Proof.
  rewrite !elem_of_JobTask_rows.
  intros (k1 & r1 & H1 & ->) (k2 & r2 & H2 & ->). simpl.
  intros [= ->] [= ->]. congruence.
Qed.

Lemma find_task_pk (db : DB) (qs : list JobTask.t) (k : positive) (t : JobTask.t) :
  (∀ x, x ∈ qs → x ∈ JobTask_rows db) →
  t ∈ qs → JobTask.pk t = Some k →
  List.find (λ y, bool_decide (JobTask.pk y = Some k)) qs = Some t.
Proof.
  intros Hsub Hin Hpk.
  destruct (List.find _ qs) as [t'|] eqn:Hf.
  - apply find_pk_Some in Hf as [Hin' Hpk'].
    f_equal. eapply JobTask_rows_pk_unique; eauto.
  - apply list_elem_of_In in Hin.
    pose proof (find_none _ _ Hf t Hin) as Hn. simpl in Hn.
    by apply bool_decide_eq_false in Hn.
Qed.

Lemma JobTask_get_row (k : positive) (db : DB) (t : JobTask.t) :
  JobTask_get k db = Some t → t ∈ JobTask_rows db ∧ JobTask.pk t = Some k.
Proof.
  unfold JobTask_get. destruct (job_tasks db !! k) as [row|] eqn:Hk; [|done].
  intros [= <-]. split; [|done]. apply elem_of_JobTask_rows. eauto.
Qed.

(** [get_object] on tasks, decided by membership in the queryset. *)
Lemma JobTaskViewSet_get_object_run request pk db t j :
  JobTaskViewSet.filterset_errors request db = [] →
  JobTask_get pk db = Some t → JobTaskViewSet.owner t db = Some j →
  (t ∈ JobTaskViewSet.get_queryset request db →
   JobTaskViewSet.get_object request pk db =
     if CanUpdateJobProgress.has_object_permission request (OfTask t j)
     then (Ok t, db) else (Err PermissionDenied, db))
  ∧ (t ∉ JobTaskViewSet.get_queryset request db →
     JobTaskViewSet.get_object request pk db = (Err Http404, db)).
Proof.
  intros Hvalid Hget Ho. apply JobTask_get_row in Hget as [Hrow Hpk].
  unfold JobTaskViewSet.get_object.
  rewrite JobTaskViewSet_filter_queryset_run, Hvalid.
  split; intros Hin.
  - rewrite (find_task_pk db _ pk t); [by rewrite Ho| |by rewrite order_by_perm
                                        |done].
    intros x Hx. rewrite order_by_perm in Hx.
    by apply elem_of_task_queryset in Hx as ([? _] & _).
  - destruct (List.find _ _) as [t'|] eqn:Hf; [|done].
    apply find_pk_Some in Hf as [Hin' Hpk'].
    rewrite order_by_perm in Hin'.
    assert (t' = t) as ->; [|done].
    eapply JobTask_rows_pk_unique; eauto.
    by apply elem_of_task_queryset in Hin' as ([? _] & _).
Qed.

Lemma plain_task_queryset u m db t j :
  JobTask_get (default 1%positive (JobTask.pk t)) db = Some t →
  JobTaskViewSet.owner t db = Some j →
  (t ∈ JobTaskViewSet.get_queryset (Request.plain u m) db ↔
   (User.role u = Role.technician → Job.assigned_to j = Some (User.pk u))).
Proof.
  intros Hget Ho. apply JobTask_get_row in Hget as [Hrow _].
  rewrite elem_of_task_queryset. unfold is_task_row. simpl. rewrite Ho.
  split.
  - intros (_ & _ & _ & H) Hr. destruct (H Hr) as (j' & [= <-] & ?). done.
  - intros H. repeat split; try done; eauto.
Qed.

(** X3: for a request without query parameters and an existing task, an
    admin reaches the task; a technician reaches it when the task's job is
    assigned to that technician and is answered 404 otherwise; a sales agent
    reaches it for reading, and for writing only when that agent created
    the job, being answered 403 otherwise. A refused task update returns
    that error and leaves the database as it was. *)
Theorem JobTaskViewSet_get_object_by_role
    (now : datetime) (u : User.t) (m : Method.t) (pk : positive)
    (data : TaskPatch.t) (db : DB) (t : JobTask.t) (j : Job.t) :
  JobTask_get pk db = Some t → JobTaskViewSet.owner t db = Some j →
  JobTaskViewSet.get_object (Request.plain u m) pk db =
    match User.role u with
    | Role.admin => (Ok t, db)
    | Role.technician =>
        if is_user (Job.assigned_to j) u then (Ok t, db) else (Err Http404, db)
    | Role.sales_agent =>
        if Method.safe m || is_user (Job.created_by j) u
        then (Ok t, db) else (Err PermissionDenied, db)
    end
  ∧ (∀ e, JobTaskViewSet.get_object (Request.plain u m) pk db = (Err e, db) →
          JobTaskViewSet_update now (Request.plain u m) pk data db = (Err e, db)).
Proof.
  intros Hget Ho. split.
  - destruct (JobTaskViewSet_get_object_run (Request.plain u m) _ _ _ _
                eq_refl Hget Ho) as [Hin Hout].
    pose proof (JobTask_get_row _ _ _ Hget) as [_ Hpk].
    assert (Hget' : JobTask_get (default 1%positive (JobTask.pk t)) db = Some t)
      by (by rewrite Hpk).
    pose proof (plain_task_queryset u m db t j Hget' Ho) as Hq.
    unfold CanUpdateJobProgress.has_object_permission, is_user in *.
    simpl in *.
    destruct (User.role u) eqn:Hr; simpl in *.
    + rewrite Hin by (apply Hq; done). by destruct (Method.safe m).
    + case_bool_decide as Ha.
      * rewrite Hin by (apply Hq; done). by destruct (Method.safe m).
      * apply Hout. intros Hx. apply Hq in Hx; done.
    + rewrite Hin by (apply Hq; done). by destruct (Method.safe m).
  - intros e He. unfold JobTaskViewSet_update.
    by rewrite (bind_err _ _ _ _ _ He).
Qed.

(** ** What the write actions leave behind *)

Lemma JobViewSet_get_object_db request pk db :
  ∃ r, JobViewSet_get_object request pk db = (r, db).
Proof.
  destruct (JobViewSet_get_object request pk db) as [r db'] eqn:H.
  destruct (JobViewSet_get_object_inv _ _ _ _ _ H) as [-> _]. eauto.
Qed.

Lemma JobTaskViewSet_get_object_db request pk db :
  ∃ r, JobTaskViewSet.get_object request pk db = (r, db).
Proof.
  destruct (JobTaskViewSet.get_object request pk db) as [r db'] eqn:H.
  destruct (JobTaskViewSet_get_object_inv _ _ _ _ _ H) as [-> _]. eauto.
Qed.

(** Every run of [complete]: an error with the database as it was, or the
    job stored as completed and one entry appended. *)
Lemma JobViewSet_complete_cases cf now request pk db :
  (∃ e, JobViewSet_complete cf now request pk db = (Err e, db))
  ∨ (∃ job, JobViewSet_get_object request pk db = (Ok job, db)
            ∧ can_complete job db = true
            ∧ JobViewSet_complete cf now request pk db =
                (Ok (completed_job now job),
                 with_job_change_logs
                   (job_change_logs db
                    ++ [completed_entry now pk (Request.user request)])
                   (with_jobs (<[pk := completed_job now job]> (jobs db)) db))).
Proof.
  destruct (JobViewSet_get_object_db request pk db) as [[job|e] Hget].
  - rewrite (JobViewSet_complete_run _ _ _ _ _ _ Hget).
    destruct (can_complete job db) eqn:Hc; simpl; [|eauto].
    destruct (cf _ db); eauto 6.
  - left. exists e. unfold JobViewSet_complete.
    rewrite (bind_ok _ _ _ _ _ (JobViewSet_check_permissions_ok request
               "complete" db ltac:(done))).
    by rewrite (bind_err _ _ _ _ _ Hget).
Qed.

(** Every run of a job update: an error with the database as it was, or
    the patched job stored and at most one entry appended. *)
Lemma JobViewSet_update_cases cf now request pk data db :
  (∃ e, JobViewSet_update cf now request pk data db = (Err e, db))
  ∨ (∃ instance l attrs,
       JobViewSet_get_object request pk db = (Ok instance, db)
       ∧ JobUpdateSerializer.to_internal_value (partial request) data db
         = Ok attrs
       ∧ (l = [] ∨ ∃ changes,
            l = [JobChangeLog.mk pk (Some (User.pk (Request.user request)))
                   "updated" (JObj changes) now])
       ∧ JobViewSet_update cf now request pk data db =
           (Ok (Job.set_updated_at now
                  (JobUpdateSerializer.update instance attrs)),
            with_job_change_logs (job_change_logs db ++ l)
              (with_jobs
                 (<[pk := Job.set_updated_at now
                            (JobUpdateSerializer.update instance attrs)]>
                    (jobs db)) db))).
Proof.
  destruct (JobViewSet_get_object_db request pk db) as [[instance|e] Hget].
  - rewrite (JobViewSet_update_run cf now request pk data db instance Hget).
    destruct (JobUpdateSerializer.to_internal_value _ data db) as [attrs|e]
      eqn:Hfields; [|eauto].
    cbv zeta.
    destruct (_ && _); [eauto|].
    destruct (cf _ db); [|eauto].
    right. exists instance.
    destruct (updated_changes _ _ _ db) as [|c cs].
    + exists [], attrs. rewrite app_nil_r. repeat split; auto.
    + eexists [_], attrs. repeat split; eauto.
  - left. exists e. unfold JobViewSet_update.
    rewrite (bind_ok _ _ _ _ _ (JobViewSet_check_permissions_ok request
               "update" db ltac:(done))).
    by rewrite (bind_err _ _ _ _ _ Hget).
Qed.

(** Every run of a task update. *)
Lemma JobTaskViewSet_update_cases now request pk data db :
  (∃ e, JobTaskViewSet_update now request pk data db = (Err e, db))
  ∨ (∃ t l,
       JobTaskViewSet.get_object request pk db = (Ok t, db)
       ∧ JobTaskSerializer.is_valid data db = (Ok data, db)
       ∧ (l = [] ∨ l = [task_updated_entry now (Request.user request)
                          (JobTask.status t) (updated_task now t data)])
       ∧ JobTaskViewSet_update now request pk data db =
           (Ok (updated_task now t data),
            with_job_change_logs (job_change_logs db ++ l)
              (with_job_tasks
                 (<[pk := updated_task now t data]> (job_tasks db)) db))).
Proof.
  destruct (JobTaskViewSet_get_object_db request pk db) as [[t|e] Hget].
  - rewrite (JobTaskViewSet_update_run _ _ _ _ _ _ Hget).
    rewrite JobTaskSerializer_is_valid_run.
    repeat (destruct (negb _); [eauto|]).
    right. exists t. case_bool_decide.
    + eexists [_]. repeat split; eauto.
    + exists []. rewrite app_nil_r. repeat split; auto.
  - left. exists e. unfold JobTaskViewSet_update.
    by rewrite (bind_err _ _ _ _ _ Hget).
Qed.

(** X4: a refused request writes nothing: whenever [complete], a job update
    or a task update answers with an error (not found, forbidden,
    validation), the database is exactly the one before the request. *)
Theorem refused_requests_write_nothing
    (clean_fields : Job.t → DB → list string) (now : datetime)
    (request : Request.t) (pk : positive)
    (jdata : JobPatch.t) (tdata : TaskPatch.t) (db : DB) :
  (∀ e db', JobViewSet_complete clean_fields now request pk db = (Err e, db') →
            db' = db)
  ∧ (∀ e db', JobViewSet_update clean_fields now request pk jdata db
              = (Err e, db') → db' = db)
  ∧ (∀ e db', JobTaskViewSet_update now request pk tdata db = (Err e, db') →
              db' = db).
Proof.
  split; [|split]; intros e db'.
  - destruct (JobViewSet_complete_cases clean_fields now request pk db)
      as [[e0 ->] | (job & _ & _ & ->)]; by intros [=].
  - destruct (JobViewSet_update_cases clean_fields now request pk jdata db)
      as [[e0 ->] | (i & l & attrs & _ & _ & _ & ->)]; by intros [=].
  - destruct (JobTaskViewSet_update_cases now request pk tdata db)
      as [[e0 ->] | (t & l & _ & _ & _ & ->)]; by intros [=].
Qed.

(** X5: the write actions only ever append to the change log, at most one
    entry per request, and never touch what is not theirs: [complete] and
    job updates leave tasks, users and equipment alone, task updates leave
    jobs, users and equipment alone. *)
Theorem actions_append_to_log
    (clean_fields : Job.t → DB → list string) (now : datetime)
    (request : Request.t) (pk : positive)
    (jdata : JobPatch.t) (tdata : TaskPatch.t) (db : DB) :
  (∀ r db', JobViewSet_complete clean_fields now request pk db = (r, db') →
     (∃ l, job_change_logs db' = job_change_logs db ++ l ∧ (length l ≤ 1)%nat)
     ∧ job_tasks db' = job_tasks db ∧ users db' = users db
     ∧ equipment db' = equipment db)
  ∧ (∀ r db', JobViewSet_update clean_fields now request pk jdata db = (r, db') →
     (∃ l, job_change_logs db' = job_change_logs db ++ l ∧ (length l ≤ 1)%nat)
     ∧ job_tasks db' = job_tasks db ∧ users db' = users db
     ∧ equipment db' = equipment db)
  ∧ (∀ r db', JobTaskViewSet_update now request pk tdata db = (r, db') →
     (∃ l, job_change_logs db' = job_change_logs db ++ l ∧ (length l ≤ 1)%nat)
     ∧ jobs db' = jobs db ∧ users db' = users db
     ∧ equipment db' = equipment db).
Proof.
  split; [|split]; intros r db'.
  - destruct (JobViewSet_complete_cases clean_fields now request pk db)
      as [[e0 ->] | (job & _ & _ & ->)]; intros [= _ <-].
    + split; [|done]. exists []. rewrite app_nil_r. split; [done|simpl; lia].
    + split; [|done]. eexists [_]. split; [done|]. simpl. lia.
  - destruct (JobViewSet_update_cases clean_fields now request pk jdata db)
      as [[e0 ->] | (i & l & attrs & _ & _ & Hl & ->)]; intros [= _ <-].
    + split; [|done]. exists []. rewrite app_nil_r. split; [done|simpl; lia].
    + split; [|done]. exists l. split; [done|].
      destruct Hl as [-> | (? & ->)]; simpl; lia.
  - destruct (JobTaskViewSet_update_cases now request pk tdata db)
      as [[e0 ->] | (t & l & _ & _ & Hl & ->)]; intros [= _ <-].
    + split; [|done]. exists []. rewrite app_nil_r. split; [done|simpl; lia].
    + split; [|done]. exists l. split; [done|].
      destruct Hl as [-> | ->]; simpl; lia.
Qed.

Lemma Job_get_row (k : positive) (db : DB) (j : Job.t) :
  Job_get k db = Some j →
  ∃ row, jobs db !! k = Some row ∧ j = Job.set_pk (Some k) row.
Proof.
  unfold Job_get. destruct (jobs db !! k) as [row|]; [|done].
  intros [= <-]. eauto.
Qed.

(** X6: no job action changes a job's [overdue], [created_by] or
    [created_at], adds or removes a job, or touches another job's row:
    whatever [complete] or an update answers, a job that was flagged
    overdue stays flagged (also once completed). *)
Theorem job_actions_keep_fields
    (clean_fields : Job.t → DB → list string) (now : datetime)
    (request : Request.t) (pk : positive) (data : JobPatch.t)
    (db : DB) (r : result Job.t) (db' : DB) :
  JobViewSet_complete clean_fields now request pk db = (r, db')
  ∨ JobViewSet_update clean_fields now request pk data db = (r, db') →
  ∀ k, match jobs db !! k with
       | Some row =>
           ∃ row', jobs db' !! k = Some row'
                   ∧ Job.overdue row' = Job.overdue row
                   ∧ Job.created_by row' = Job.created_by row
                   ∧ Job.created_at row' = Job.created_at row
                   ∧ (k ≠ pk → row' = row)
       | None => jobs db' !! k = None
       end.
Proof.
  assert (Hstore : ∀ job new,
    JobViewSet_get_object request pk db = (Ok job, db) →
    Job.overdue new = Job.overdue job →
    Job.created_by new = Job.created_by job →
    Job.created_at new = Job.created_at job →
    ∀ k, match jobs db !! k with
         | Some row =>
             ∃ row', <[pk := new]> (jobs db) !! k = Some row'
                     ∧ Job.overdue row' = Job.overdue row
                     ∧ Job.created_by row' = Job.created_by row
                     ∧ Job.created_at row' = Job.created_at row
                     ∧ (k ≠ pk → row' = row)
         | None => <[pk := new]> (jobs db) !! k = None
         end).
  { intros job new Hget Ho Hc Ht k.
    destruct (JobViewSet_get_object_inv _ _ _ _ _ Hget) as [_ Hjob].
    destruct (Hjob job eq_refl) as (_ & Hrow & _).
    apply Job_get_row in Hrow as (row0 & Hk0 & ->).
    rewrite lookup_insert. case_decide as Hk.
    - subst k. rewrite Hk0. exists new. repeat split; try done.
    - destruct (jobs db !! k); [|done]. eauto 8. }
  assert (Hsame : ∀ k, match jobs db !! k with
       | Some row =>
           ∃ row', jobs db !! k = Some row'
                   ∧ Job.overdue row' = Job.overdue row
                   ∧ Job.created_by row' = Job.created_by row
                   ∧ Job.created_at row' = Job.created_at row
                   ∧ (k ≠ pk → row' = row)
       | None => jobs db !! k = None
       end).
  { intros k. destruct (jobs db !! k); eauto 8. }
  intros [Hrun | Hrun].
  - destruct (JobViewSet_complete_cases clean_fields now request pk db)
      as [[e0 He] | (job & Hget & _ & Hok)]; rewrite Hrun in *.
    + injection He as _ ->. exact Hsame.
    + injection Hok as _ ->. simpl. by apply (Hstore job).
  - destruct (JobViewSet_update_cases clean_fields now request pk data db)
      as [[e0 He] | (i & l & attrs & Hget & _ & _ & Hok)]; rewrite Hrun in *.
    + injection He as _ ->. exact Hsame.
    + injection Hok as _ ->. simpl. by apply (Hstore i).
Qed.

(** ** [complete] does not look at the current status *)





(** X8: a completed job that owns an open task (a task was reopened or
    added after completion) refuses, with nothing written, every update
    whose patch leaves the status out or sets it to completed, a mere
    rename included: with the incomplete-tasks error on the status key
    when the fields of the patch are valid, with the errors of the fields
    otherwise. A patch with valid fields that sets another status is
    accepted when the model validation of the patched job passes. *)
Theorem completed_job_with_open_task_is_frozen
    (clean_fields : Job.t → DB → list string) (now : datetime)
    (request : Request.t) (pk : positive) (data : JobPatch.t)
    (db : DB) (instance : Job.t) :
  JobViewSet_get_object request pk db = (Ok instance, db) →
  Job.status instance = JobStatus.completed →
  can_complete instance db = false →
  (JobPatch.status data = None
   ∨ JobPatch.status data = Some JobStatus.completed →
   (patch_fields_valid request data db →
    JobViewSet_update clean_fields now request pk data db
    = (Err (BadRequest "status" incomplete_msg), db))
   ∧ (¬ patch_fields_valid request data db →
      ∃ errors, errors ≠ []
                ∧ JobViewSet_update clean_fields now request pk data db
                  = (Err (FieldErrors errors), db)))
  ∧ (∀ s,
       JobPatch.status data = Some s → s ≠ JobStatus.completed →
       patch_fields_valid request data db →
       clean_fields (JobUpdateSerializer.update instance (trimmed data)) db
       = [] →
       ∃ job db', JobViewSet_update clean_fields now request pk data db
                  = (Ok job, db')
                  ∧ Job.status job = s).
Proof.
  intros Hget Hst Hc.
  rewrite (JobViewSet_update_run clean_fields now request pk data db
             instance Hget).
  split.
  - intros Hdata. split.
    + intros Hvalid. rewrite (to_internal_value_valid _ _ _ Hvalid).
      cbv zeta. unfold trimmed at 1. simpl. rewrite Hc.
      destruct Hdata as [-> | ->]; simpl; rewrite ?Hst; simpl; done.
    + intros Hinvalid.
      destruct (to_internal_value_invalid _ _ _ Hinvalid)
        as (errors & Hne & ->). eauto.
  - intros s Hs Hne Hvalid Hcf.
    rewrite (to_internal_value_valid _ _ _ Hvalid).
    cbv zeta. rewrite Hcf. unfold trimmed at 1. simpl. rewrite Hs. simpl.
    rewrite bool_decide_eq_false_2 by done. simpl.
    destruct (updated_changes _ _ _ db); eexists _, _; (split; [done|]);
      simpl; by rewrite Hs.
Qed.

(** X9: a job update can only assign an active technician: after a
    successful update whose patch names an assignee, the job's
    [assigned_to] is that user, who is in the users table with role
    technician and active; a null assignee unassigns the job, and a patch
    without the field leaves the assignee as it was. *)
Theorem JobViewSet_update_assigns_technician
    (clean_fields : Job.t → DB → list string) (now : datetime)
    (request : Request.t) (pk : positive) (data : JobPatch.t)
    (db : DB) (job : Job.t) (db' : DB) :
  JobViewSet_update clean_fields now request pk data db = (Ok job, db') →
  match JobPatch.assigned_to_id data with
  | Some (Some u) =>
      Job.assigned_to job = Some u
      ∧ ∃ usr, users db !! u = Some usr
               ∧ User.role usr = Role.technician
               ∧ User.is_active usr = true
  | Some None => Job.assigned_to job = None
  | None => ∃ old, Job_get pk db = Some old
                   ∧ Job.assigned_to job = Job.assigned_to old
  end.
Proof.
  intros Hrun.
  destruct (JobViewSet_update_cases clean_fields now request pk data db)
    as [[e0 He] | (i & l & attrs & Hget & Hfields & _ & Hok)];
    rewrite Hrun in *; [done|].
  injection Hok as -> _.
  destruct (JobViewSet_get_object_inv _ _ _ _ _ Hget) as [_ Hjob].
  destruct (Hjob i eq_refl) as (_ & Hrow & _).
  destruct (to_internal_value_Ok _ _ _ _ Hfields)
    as (_ & _ & _ & Hassigned & Hv & _).
  unfold JobUpdateSerializer.assigned_to_id_valid in Hv. simpl.
  rewrite Hassigned.
  destruct (JobPatch.assigned_to_id data) as [[u|]|]; simpl; [|done|eauto].
  split; [done|]. destruct (users db !! u) as [usr|]; [|done].
  apply andb_true_iff in Hv as [Hr Ha]. apply bool_decide_eq_true in Hr.
  eauto.
Qed.

(** X10: a task update stores only validated values: a negative [order] is
    refused (zero is accepted), and after a successful update the order,
    the job and the equipment that the patch carried are stored, the order
    non-negative, the job existing and every piece of equipment existing
    and active. *)
Theorem JobTaskViewSet_update_validated
    (now : datetime) (request : Request.t) (pk : positive)
    (data : TaskPatch.t) (db : DB) :
  (∀ v, TaskPatch.order data = Some v → v < 0 →
        ∃ e, JobTaskViewSet_update now request pk data db = (Err e, db))
  ∧ (∀ task db',
       JobTaskViewSet_update now request pk data db = (Ok task, db') →
       (∀ v, TaskPatch.order data = Some v → 0 ≤ v ∧ JobTask.order task = v)
       ∧ (∀ k, TaskPatch.job data = Some k →
               JobTask.job task = k ∧ is_Some (jobs db !! k))
       ∧ (∀ ids, TaskPatch.required_equipment_ids data = Some ids →
                 JobTask.required_equipment task = ids
                 ∧ ∀ k, k ∈ ids → ∃ e, equipment db !! k = Some e
                                       ∧ Equipment.is_active e = true)).
Proof.
  split.
  - intros v Hv Hneg.
    destruct (JobTaskViewSet_update_cases now request pk data db)
      as [[e0 He] | (t & l & _ & Hvalid & _ & _)]; [eauto|].
    rewrite JobTaskSerializer_is_valid_run in Hvalid.
    unfold task_order_ok in Hvalid. rewrite Hv in Hvalid.
    rewrite (bool_decide_eq_true_2 (v < 0)) in Hvalid by done.
    simpl in Hvalid. by destruct (negb (task_job_ok data db)).
  - intros task db' Hrun.
    destruct (JobTaskViewSet_update_cases now request pk data db)
      as [[e0 He] | (t & l & _ & Hvalid & _ & Hok)]; rewrite Hrun in *;
      [done|].
    injection Hok as -> _.
    rewrite JobTaskSerializer_is_valid_run in Hvalid.
    destruct (task_job_ok data db) eqn:Hj; [|done].
    destruct (task_order_ok data) eqn:Ho; [|done].
    destruct (JobTaskSerializer.equipment_valid _ db) eqn:He; [|done].
    unfold updated_task. simpl.
    assert (Hord : ∀ x, JobTask.order (JobTask_pre_save now x) = JobTask.order x).
    { intros x. unfold JobTask_pre_save. by repeat case_match. }
    assert (Hjob : ∀ x, JobTask.job (JobTask_pre_save now x) = JobTask.job x).
    { intros x. unfold JobTask_pre_save. by repeat case_match. }
    assert (Heq : ∀ x, JobTask.required_equipment (JobTask_pre_save now x)
                       = JobTask.required_equipment x).
    { intros x. unfold JobTask_pre_save. by repeat case_match. }
    rewrite Hord, Hjob, Heq. simpl. split; [|split].
    + intros v Hv. unfold task_order_ok in Ho. rewrite Hv in *. simpl.
      apply negb_true_iff, bool_decide_eq_false in Ho. split; [lia|done].
    + intros k Hk. unfold task_job_ok in Hj. rewrite Hk in *. simpl.
      apply bool_decide_eq_true in Hj. done.
    + intros ids Hids. rewrite Hids in *. simpl. split; [done|].
      intros k Hin. unfold JobTaskSerializer.equipment_valid in He.
      rewrite forallb_forall in He. apply list_elem_of_In in Hin.
      specialize (He k Hin). destruct (equipment db !! k); [eauto|done].
Qed.

(** ** Retention of the change log *)

(** X11: [cleanup_old_logs] removes exactly the log entries older than 90
    days and keeps the others in their order; the number in its message is
    the number of entries removed; no other table is touched; run again at
    the same or an earlier time it removes nothing. *)
Theorem cleanup_old_logs_spec (now : datetime) (db : DB) :
  ∃ n db',
    cleanup_old_logs now db
    = (Ok ("Deleted " +:+ pretty n +:+ " old job change logs"), db')
    ∧ (∀ l, l ∈ job_change_logs db' ↔
            l ∈ job_change_logs db
            ∧ now - 90 * 86400 ≤ JobChangeLog.timestamp l)
    ∧ sublist (job_change_logs db') (job_change_logs db)
    ∧ length (job_change_logs db) = (n + length (job_change_logs db'))%nat
    ∧ jobs db' = jobs db ∧ job_tasks db' = job_tasks db
    ∧ users db' = users db ∧ equipment db' = equipment db
    ∧ ∀ again, again ≤ now →
        cleanup_old_logs again db'
        = (Ok "Deleted 0 old job change logs", db').
Proof.
  unfold cleanup_old_logs, timedelta_days. eexists _, _.
  split; [reflexivity|]. simpl. split; [|split; [|split]].
  - intros l. rewrite elem_of_List_filter, negb_true_iff, bool_decide_eq_false.
    split; intros [? ?]; (split; [done|lia]).
  - apply List_filter_sublist.
  - apply List_filter_split_length.
  - repeat split; try done. intros again Hle.
    assert (Hnone : ∀ x,
      x ∈ List.filter
            (λ l, negb (bool_decide (JobChangeLog.timestamp l < now - 90 * 86400)))
            (job_change_logs db) →
      bool_decide (JobChangeLog.timestamp x < again - 90 * 86400) = false).
    { intros x Hx. apply elem_of_List_filter in Hx as [_ Hx].
      apply negb_true_iff, bool_decide_eq_false in Hx.
      apply bool_decide_eq_false. lia. }
    rewrite (List_filter_none _ _ Hnone). simpl.
    rewrite List_filter_all; [by destruct db|].
    intros x Hx. by rewrite (Hnone x Hx).
Qed.

(** ** The change log of a job *)

#[global] Instance newest_first_total : Total newest_first.
Proof. unfold newest_first. intros a b. lia. Qed.

#[global] Instance newest_first_trans : Transitive newest_first.
Proof. unfold newest_first. intros a b c. lia. Qed.




(** ** Equipment *)

Lemma validate_serial_number_Ok instance value db :
  EquipmentSerializer.validate_serial_number instance value db = Ok value ↔
  ∀ k e, equipment db !! k = Some e → Equipment.serial_number e = value →
         instance = Some k.
Proof.
  unfold EquipmentSerializer.validate_serial_number.
  destruct (existsb _ _) eqn:Hex.
  - split; [done|]. intros Hall. exfalso.
    apply existsb_exists in Hex as ([k e] & Hin & Hp).
    apply list_elem_of_In, elem_of_map_to_list in Hin.
    apply andb_true_iff in Hp as [Hk Hs]. simpl in *.
    apply negb_true_iff, bool_decide_eq_false in Hk.
    apply bool_decide_eq_true in Hs. by rewrite (Hall k e Hin Hs) in Hk.
  - split; [|done]. intros _ k e Hk Hs.
    destruct (decide (Some k = instance)) as [<-|Hne]; [done|].
    exfalso. apply not_true_iff_false in Hex. apply Hex.
    apply existsb_exists. exists (k, e). split.
    + by apply list_elem_of_In, elem_of_map_to_list.
    + simpl. rewrite bool_decide_eq_false_2 by done.
      by rewrite bool_decide_eq_true_2.
Qed.

(** X13: [validate_serial_number] accepts a serial number exactly when no
    other equipment has it (on creation: no equipment at all), so an
    equipment keeps its own serial number on update; and a row written
    after the validation passed, under the updated key or under a new key,
    leaves the serial numbers of the table pairwise distinct. *)
Theorem validate_serial_number_unique
    (instance : option positive) (value : string) (db : DB) :
  (EquipmentSerializer.validate_serial_number instance value db = Ok value ↔
   ∀ k e, equipment db !! k = Some e → Equipment.serial_number e = value →
          instance = Some k)
  ∧ (EquipmentSerializer.validate_serial_number instance value db ≠ Ok value →
     EquipmentSerializer.validate_serial_number instance value db
     = Err (BadRequest "serial_number"
              "Equipment with this serial number already exists."))
  ∧ (serials_unique (equipment db) →
     ∀ k e, instance = Some k → equipment db !! k = Some e →
            EquipmentSerializer.validate_serial_number instance
              (Equipment.serial_number e) db
            = Ok (Equipment.serial_number e))
  ∧ (serials_unique (equipment db) →
     EquipmentSerializer.validate_serial_number instance value db = Ok value →
     ∀ k e, (instance = Some k ∨ (instance = None ∧ equipment db !! k = None)) →
            Equipment.serial_number e = value →
            serials_unique (<[k := e]> (equipment db))).
Proof.
  split; [apply validate_serial_number_Ok|]. split; [|split].
  - unfold EquipmentSerializer.validate_serial_number.
    by destruct (existsb _ _).
  - intros Hu k e -> Hk. apply validate_serial_number_Ok.
    intros k' e' Hk' Hs. f_equal. symmetry. by eapply Hu.
  - intros Hu Hok k e Hkey Hs k1 k2 e1 e2.
    rewrite validate_serial_number_Ok in Hok.
    rewrite !lookup_insert. repeat case_decide; subst.
    + done.
    + intros [= <-] H2 Heq. symmetry in Heq.
      specialize (Hok k2 e2 H2 Heq). destruct Hkey as [-> | [-> _]]; congruence.
    + intros H1 [= <-] Heq.
      specialize (Hok k1 e1 H1 Heq). destruct Hkey as [-> | [-> _]]; congruence.
    + apply Hu.
Qed.

Lemma count_status_partition (qs : list JobTask.t) :
  length qs = (count_status TaskStatus.completed qs
               + count_status TaskStatus.pending qs
               + count_status TaskStatus.in_progress qs)%nat.
Proof.
  unfold count_status. induction qs as [|t qs IH]; simpl; [done|].
  destruct (JobTask.status t); simpl; lia.
Qed.

(** X14: in the usage statistics of an equipment the total is the sum of
    the completed, pending and in-progress counts, every task counted
    requires the equipment, and an equipment that no task requires has all
    counts zero. *)
Theorem EquipmentViewSet_usage_stats_partition
    (k : positive) (e : Equipment.t) (db : DB) :
  let stats := EquipmentViewSet_usage_stats k e db in
  UsageStats.total_tasks stats
  = (UsageStats.completed_tasks stats + UsageStats.pending_tasks stats
     + UsageStats.in_progress_tasks stats)%nat
  ∧ (∀ t, t ∈ Equipment_tasks k db ↔
          t ∈ JobTask_rows db ∧ k ∈ JobTask.required_equipment t)
  ∧ ((∀ t, t ∈ JobTask_rows db → k ∉ JobTask.required_equipment t) →
     stats = UsageStats.mk k (Equipment.name e) 0 0 0 0).
Proof.
  simpl. split; [apply count_status_partition|]. split.
  - intros t. unfold Equipment_tasks.
    by rewrite elem_of_List_filter, bool_decide_eq_true.
  - intros Hnone. unfold EquipmentViewSet_usage_stats.
    assert (Hnil : Equipment_tasks k db = []).
    { unfold Equipment_tasks. apply List_filter_none. intros t Ht.
      apply bool_decide_eq_false. by apply Hnone. }
    by rewrite Hnil.
Qed.

(** ** Task counters of a job *)

Lemma count_status_le (s : TaskStatus.t) (qs : list JobTask.t) :
  (count_status s qs ≤ length qs)%nat.
Proof.
  unfold count_status. induction qs as [|t qs IH]; simpl; [done|].
  destruct (bool_decide _); simpl; lia.
Qed.

Lemma count_completed_all (qs : list JobTask.t) :
  count_status TaskStatus.completed qs = length qs ↔
  existsb task_is_open qs = false.
Proof.
  unfold count_status, task_is_open.
  induction qs as [|t qs IH]; simpl; [done|].
  pose proof (count_status_le TaskStatus.completed qs) as Hle.
  unfold count_status in Hle.
  destruct (JobTask.status t); simpl.
  - split; [lia|done].
  - split; [lia|done].
  - rewrite <-IH. lia.
Qed.

(** X15: for a saved job, the job serializer's completed-task count never
    exceeds its task count, and the two are equal exactly when the job can
    be completed. *)
Theorem JobSerializer_counts (obj : Job.t) (k : positive) (db : DB) :
  Job.pk obj = Some k →
  (JobSerializer.get_completed_tasks_count obj db
   ≤ JobSerializer.get_tasks_count obj db)%nat
  ∧ (JobSerializer.get_completed_tasks_count obj db
     = JobSerializer.get_tasks_count obj db ↔ can_complete obj db = true).
Proof.
  intros Hk.
  unfold JobSerializer.get_completed_tasks_count,
    JobSerializer.get_tasks_count, JobSerializer.tasks, can_complete.
  split; [apply count_status_le|].
  rewrite Hk. simpl. rewrite count_completed_all, negb_true_iff. done.
Qed.

(** ** Creating jobs and tasks *)

Lemma fresh_pk_fresh {A} (m : gmap positive A) : m !! fresh_pk m = None.
Proof.
  unfold fresh_pk.
  assert (Hmax : ∀ (l : list positive) k,
            k ∈ l → (k ≤ foldr Pos.max 1 l)%positive).
  { induction l as [|x l IH]; intros k Hk; [by apply elem_of_nil in Hk|].
    apply elem_of_cons in Hk as [-> | Hk]; simpl; [lia|].
    specialize (IH k Hk). lia. }
  destruct ((map_to_list m).*1) as [|k0 keys] eqn:Hkeys.
  - apply fmap_nil_inv, map_to_list_empty_iff in Hkeys as ->.
    apply lookup_empty.
  - rewrite <- Hkeys.
    destruct (m !! Pos.succ _) as [x|] eqn:Hx; [|done]. exfalso.
    apply elem_of_map_to_list in Hx.
    assert (Hin : Pos.succ (foldr Pos.max 1%positive (map_to_list m).*1)
                  ∈ (map_to_list m).*1).
    { apply list_elem_of_fmap. by eexists (_, x). }
    apply Hmax in Hin. lia.
Qed.

(** The first row of a table gets key 1. *)
Lemma fresh_pk_empty {A} : fresh_pk (∅ : gmap positive A) = 1%positive.
Proof. unfold fresh_pk. by rewrite map_to_list_empty. Qed.

(** What [perform_create] writes. *)
Lemma JobViewSet_perform_create_run cf now request (attrs : JobCreate.t) db :
  let new :=
    Job.mk None (JobCreate.title attrs) (JobCreate.description attrs)
      (JobCreate.client_name attrs)
      (Some (User.pk (Request.user request))) (JobCreate.assigned_to attrs)
      JobStatus.pending
      (default Priority.medium (JobCreate.priority attrs))
      (JobCreate.scheduled_date attrs) false now now in
  let k := fresh_pk (jobs db) in
  let job := Job.set_pk (Some k) new in
  JobViewSet_perform_create cf now request attrs db =
    match cf new db with
    | [] =>
        (Ok job,
         with_job_change_logs
           (job_change_logs db
            ++ [JobChangeLog.mk k (Some (User.pk (Request.user request)))
                  "created" (created_changes job) now])
           (with_jobs (<[k := job]> (jobs db)) db))
    | errors => (Err (ModelValidationError errors), db)
    end.
Proof.
  intros new k job.
  unfold JobViewSet_perform_create, JobCreateSerializer_save. fold new.
  unfold mbind at 1, M_bind at 1, bind at 1.
  rewrite Job_save_run. simpl.
  destruct (cf new db); [|done].
  unfold Job_write, log_for. simpl. by run.
Qed.

(** X16: [perform_create] succeeds exactly when the field validation
    passes: the new job gets a key no job had, the requesting user as
    [created_by], status pending and [overdue] false; every existing job
    keeps its row; one [created] entry naming title and client is appended.
    When it fails nothing is written. Only admins and sales agents pass
    the permission check of the create action. *)
Theorem JobViewSet_perform_create_spec
    (clean_fields : Job.t → DB → list string) (now : datetime)
    (request : Request.t) (attrs : JobCreate.t) (db : DB) :
  (∀ e db', JobViewSet_perform_create clean_fields now request attrs db
            = (Err e, db') → db' = db)
  ∧ (∀ job db', JobViewSet_perform_create clean_fields now request attrs db
                = (Ok job, db') →
       ∃ k, Job.pk job = Some k
            ∧ jobs db !! k = None
            ∧ jobs db' = <[k := job]> (jobs db)
            ∧ Job.created_by job = Some (User.pk (Request.user request))
            ∧ Job.status job = JobStatus.pending
            ∧ Job.overdue job = false
            ∧ Job.title job = JobCreate.title attrs
            ∧ Job.assigned_to job = JobCreate.assigned_to attrs
            ∧ job_tasks db' = job_tasks db
            ∧ job_change_logs db' =
                job_change_logs db
                ++ [JobChangeLog.mk k (Some (User.pk (Request.user request)))
                      "created"
                      (JObj [("status", JStr "Job created");
                             ("title", JStr (JobCreate.title attrs));
                             ("client_name",
                              JStr (JobCreate.client_name attrs))]) now])
  ∧ ((∃ job db', JobViewSet_perform_create clean_fields now request attrs db
                 = (Ok job, db')) ↔
     clean_fields
       (Job.mk None (JobCreate.title attrs) (JobCreate.description attrs)
          (JobCreate.client_name attrs)
          (Some (User.pk (Request.user request))) (JobCreate.assigned_to attrs)
          JobStatus.pending
          (default Priority.medium (JobCreate.priority attrs))
          (JobCreate.scheduled_date attrs) false now now) db = [])
  ∧ (Request.method request = Method.POST →
     JobViewSet_check_permissions request "create" db =
       match User.role (Request.user request) with
       | Role.technician => (Err PermissionDenied, db)
       | _ => (Ok tt, db)
       end).
Proof.
  pose proof (JobViewSet_perform_create_run clean_fields now request attrs db)
    as Hrun. cbv zeta in Hrun. rewrite Hrun. clear Hrun.
  pose proof (fresh_pk_fresh (jobs db)) as Hfresh.
  split; [|split; [|split]].
  - intros e db'. destruct (clean_fields _ db); [by intros [=]|].
    intros [= _ Hdb]. done.
  - intros job db'. destruct (clean_fields _ db); [|by intros [=]].
    intros [= <- <-]. simpl.
    exists (fresh_pk (jobs db)). repeat split; done.
  - destruct (clean_fields _ db).
    + split; [done|]. eauto.
    + split; [|done]. by intros (? & ? & [=]).
  - intros Hm. unfold JobViewSet_check_permissions, check,
      CanCreateJob.has_permission, CanUpdateJobProgress.has_permission.
    rewrite Hm. simpl. by destruct (User.role _).
Qed.

(** What task creation writes. *)
Lemma JobTaskCreateSerializer_save_run now (attrs : TaskCreate.t) (db : DB) :
  let k := fresh_pk (job_tasks db) in
  let task :=
    JobTask.mk (Some k) (TaskCreate.job attrs) (TaskCreate.title attrs)
      (TaskCreate.description attrs) TaskStatus.pending
      (default 0 (TaskCreate.order attrs))
      (TaskCreate.required_equipment attrs) None now now in
  JobTaskCreateSerializer_save now attrs db =
    (Ok task, with_job_tasks (<[k := task]> (job_tasks db)) db).
Proof. reflexivity. Qed.

(** X17: creating a task for an existing job stores a new pending task
    without [completed_at] under a key no task had and leaves every job
    row and the change log alone; it does not look at the job's status,
    and from then on the job cannot be completed: [can_complete] is false
    and a save of the job as completed is refused, also if the job already
    was completed. *)
Theorem JobTaskCreateSerializer_save_spec
    (clean_fields : Job.t → DB → list string)
    (now later : datetime) (attrs : TaskCreate.t) (db : DB) (job : Job.t) :
  Job_get (TaskCreate.job attrs) db = Some job →
  ∃ k task db',
    JobTaskCreateSerializer_save now attrs db = (Ok task, db')
    ∧ JobTask.pk task = Some k
    ∧ job_tasks db !! k = None
    ∧ job_tasks db' = <[k := task]> (job_tasks db)
    ∧ JobTask.status task = TaskStatus.pending
    ∧ JobTask.completed_at task = None
    ∧ JobTask.job task = TaskCreate.job attrs
    ∧ jobs db' = jobs db
    ∧ job_change_logs db' = job_change_logs db
    ∧ Job_get (TaskCreate.job attrs) db' = Some job
    ∧ can_complete job db' = false
    ∧ (Job.status job = JobStatus.completed →
       Job_save clean_fields later job db'
       = (Err (ModelValidationError
                 (clean_fields job db' ++ [incomplete_msg])), db')).
Proof.
  intros Hget.
  pose proof (JobTaskCreateSerializer_save_run now attrs db) as Hrun.
  cbv zeta in Hrun. eexists _, _, _. split; [exact Hrun|].
  split; [done|]. split; [apply fresh_pk_fresh|].
  do 6 (split; [done|]).
  split; [exact Hget|].
  assert (Hpk : Job.pk job = Some (TaskCreate.job attrs)).
  { apply Job_get_row in Hget as (row & _ & ->). by destruct row. }
  assert (Hc : can_complete job
                 (with_job_tasks
                    (<[fresh_pk (job_tasks db) :=
                         JobTask.mk (Some (fresh_pk (job_tasks db)))
                           (TaskCreate.job attrs) (TaskCreate.title attrs)
                           (TaskCreate.description attrs) TaskStatus.pending
                           (default 0 (TaskCreate.order attrs))
                           (TaskCreate.required_equipment attrs) None now now]>
                       (job_tasks db)) db) = false).
  { apply can_complete_false. eexists _, _. split; [exact Hpk|]. split.
    - apply elem_of_tasks_of. eexists _, _. split; [apply lookup_insert_eq|].
      split; reflexivity.
    - by left. }
  split; [exact Hc|]. intros Hst.
  rewrite Job_save_run, Hst, Hc. by rewrite bool_decide_eq_true_2.
Qed.

(** ** Stripping the client name *)

Lemma lstrip_empty (s : string) : lstrip s = "" ↔ all_space s = true.
Proof.
  induction s as [|c s IH]; simpl; [done|].
  destruct (isspace c); simpl; [done|]. split; discriminate.
Qed.

Lemma rstrip_empty (s : string) : rstrip s = "" ↔ all_space s = true.
Proof.
  induction s as [|c s IH]; simpl; [done|].
  destruct (rstrip s) eqn:Hr.
  - destruct (isspace c); simpl; [by rewrite <-IH|]. split; discriminate.
  - split; [discriminate|]. intros [_ H]%andb_true_iff.
    apply IH in H. discriminate.
Qed.

Lemma all_space_lstrip (s : string) : all_space (lstrip s) = all_space s.
Proof.
  induction s as [|c s IH]; simpl; [done|].
  destruct (isspace c) eqn:Hc; simpl; [done|]. by rewrite Hc.
Qed.

Lemma strip_empty (s : string) : strip s = "" ↔ all_space s = true.
Proof. unfold strip. by rewrite rstrip_empty, all_space_lstrip. Qed.

Lemma lstrip_first (s : string) :
  ∀ c, first_char (lstrip s) = Some c → isspace c = false.
Proof.
  induction s as [|c s IH]; simpl; [done|].
  destruct (isspace c) eqn:Hc; [done|]. simpl. by intros ? [= <-].
Qed.

Lemma rstrip_first (s : string) :
  rstrip s ≠ "" → first_char (rstrip s) = first_char s.
Proof.
  destruct s as [|c s]; simpl; [done|].
  destruct (rstrip s); [|done]. by destruct (isspace c).
Qed.

Lemma rstrip_last (s : string) :
  ∀ c, last_char (rstrip s) = Some c → isspace c = false.
Proof.
  induction s as [|c s IH]; simpl; [done|].
  destruct (rstrip s) as [|c' r] eqn:Hr.
  - destruct (isspace c) eqn:Hc; [done|]. simpl. by intros ? [= <-].
  - intros x. simpl. apply IH.
Qed.

Lemma rstrip_idemp (s : string) : rstrip (rstrip s) = rstrip s.
Proof.
  induction s as [|c s IH]; simpl; [done|].
  destruct (rstrip s) as [|c' r] eqn:Hr.
  - destruct (isspace c) eqn:Hc; simpl; [done|]. by rewrite Hc.
  - simpl in *. by rewrite IH.
Qed.

Lemma lstrip_id (s : string) :
  (∀ c, first_char s = Some c → isspace c = false) → lstrip s = s.
Proof.
  destruct s as [|c s]; simpl; [done|]. intros H. by rewrite (H c eq_refl).
Qed.

Lemma strip_idemp (s : string) : strip (strip s) = strip s.
Proof.
  unfold strip. rewrite (lstrip_id (rstrip (lstrip s))).
  - apply rstrip_idemp.
  - intros c. destruct (decide (rstrip (lstrip s) = "")) as [->|Hne]; [done|].
    rewrite rstrip_first by done. apply lstrip_first.
Qed.

(** X18: [validate_client_name] refuses exactly the names made of
    whitespace only (the empty name included); an accepted name comes back
    stripped: not empty, without whitespace at either end, and itself
    accepted unchanged. *)
Theorem validate_client_name_spec (value : string) :
  (JobCreateSerializer.validate_client_name value
   = Err (BadRequest "client_name" "Client name cannot be empty.")
   ↔ all_space value = true)
  ∧ (∀ name, JobCreateSerializer.validate_client_name value = Ok name →
       name = strip value
       ∧ name ≠ ""
       ∧ (∀ c, first_char name = Some c → isspace c = false)
       ∧ (∀ c, last_char name = Some c → isspace c = false)
       ∧ JobCreateSerializer.validate_client_name name = Ok name).
Proof.
  unfold JobCreateSerializer.validate_client_name.
  destruct (decide (strip value = "")) as [He|Hne].
  - rewrite He, (bool_decide_eq_true_2 ("" = "")), orb_true_r by done.
    split; [|done]. split; [|done]. intros _. by apply strip_empty.
  - assert (Hv : value ≠ "") by (by intros ->).
    rewrite !bool_decide_eq_false_2 by done. simpl. split.
    + split; [done|]. intros H. by apply strip_empty in H.
    + intros name [= <-]. split; [done|]. split; [done|].
      split; [|split].
      * intros c. unfold strip. rewrite rstrip_first by done.
        apply lstrip_first.
      * apply rstrip_last.
      * rewrite strip_idemp.
        rewrite !bool_decide_eq_false_2 by done. done.
Qed.

(** ** Saving a task twice *)

Lemma JobTask_set_updated_at_pre_save now now' (t : JobTask.t) :
  JobTask_pre_save now' (JobTask.set_updated_at now t)
  = JobTask.set_updated_at now (JobTask_pre_save now' t).
Proof. unfold JobTask_pre_save. simpl. by repeat case_match. Qed.

(** X19: the completion time is stamped once: saving a task and saving
    the result again later rewrites the same row and leaves status and
    [completed_at] as the first save set them, so a completed task keeps
    its first completion time. *)
Theorem JobTask_save_twice
    (now later : datetime) (t : JobTask.t) (db : DB) :
  ∃ k t1 db1 t2 db2,
    JobTask_save now t db = (Ok t1, db1)
    ∧ JobTask_save later t1 db1 = (Ok t2, db2)
    ∧ JobTask.pk t1 = Some k ∧ JobTask.pk t2 = Some k
    ∧ JobTask.status t2 = JobTask.status t1
    ∧ JobTask.completed_at t2 = JobTask.completed_at t1
    ∧ t2 = JobTask.set_updated_at later t1
    ∧ job_tasks db2 = <[k := t2]> (job_tasks db1).
Proof.
  destruct (JobTask_save_run now t db)
    as (k & t1 & Hrun1 & Hpk1 & _ & Hst1 & _ & _ & Hc1).
  assert (Hcons : completed_at_consistent t1).
  { unfold completed_at_consistent. rewrite Hc1, Hst1.
    rewrite <-(JobTask_pre_save_status now t).
    apply JobTask_pre_save_consistent. }
  exists k, t1. eexists. exists (JobTask.set_updated_at later t1). eexists.
  split; [exact Hrun1|].
  unfold JobTask_save at 1. rewrite (JobTask_pre_save_id later t1 Hcons).
  unfold JobTask_write. rewrite Hpk1. split; [reflexivity|].
  repeat split; done.
Qed.

(** ** Invariants of the database *)

Lemma job_actions_keep_tasks cf now request pk (data : JobPatch.t) db :
  job_tasks (JobViewSet_complete cf now request pk db).2 = job_tasks db
  ∧ job_tasks (JobViewSet_update cf now request pk data db).2 = job_tasks db.
Proof.
  split.
  - by destruct (JobViewSet_complete_cases cf now request pk db)
      as [[e0 ->] | (job & _ & _ & ->)].
  - by destruct (JobViewSet_update_cases cf now request pk data db)
      as [[e0 ->] | (i & l & attrs & _ & _ & _ & ->)].
Qed.

(** X20: every operation keeps the task table as saves leave it: if in
    every stored task [completed_at] is set exactly when the task is
    completed, the same holds after [complete], a job update, a task
    update, job creation, task creation, the overdue sweep and the log
    cleanup, whatever they answer. *)
Theorem tasks_stay_consistent
    (clean_fields : Job.t → DB → list string) (now : datetime)
    (request : Request.t) (pk : positive)
    (jdata : JobPatch.t) (tdata : TaskPatch.t)
    (jattrs : JobCreate.t) (tattrs : TaskCreate.t) (db : DB) :
  tasks_consistent db →
  tasks_consistent (JobViewSet_complete clean_fields now request pk db).2
  ∧ tasks_consistent (JobViewSet_update clean_fields now request pk jdata db).2
  ∧ tasks_consistent (JobTaskViewSet_update now request pk tdata db).2
  ∧ tasks_consistent
      (JobViewSet_perform_create clean_fields now request jattrs db).2
  ∧ tasks_consistent (JobTaskCreateSerializer_save now tattrs db).2
  ∧ tasks_consistent (check_overdue_jobs now db).2
  ∧ tasks_consistent (cleanup_old_logs now db).2.
Proof.
  intros Hinv.
  assert (Hsame : ∀ db', job_tasks db' = job_tasks db → tasks_consistent db').
  { intros db' Heq k row. rewrite Heq. apply Hinv. }
  split; [|split; [|split; [|split; [|split; [|split]]]]].
  - apply Hsame, job_actions_keep_tasks; exact jdata.
  - apply Hsame, job_actions_keep_tasks.
  - destruct (JobTaskViewSet_update now request pk tdata db)
      as [r db'] eqn:Hrun.
    intros k row. by eapply JobTaskViewSet_update_consistent.
  - apply Hsame.
    pose proof (JobViewSet_perform_create_run clean_fields now request
                  jattrs db) as Hrun. cbv zeta in Hrun. rewrite Hrun.
    by destruct (clean_fields _ db).
  - rewrite JobTaskCreateSerializer_save_run. unfold tasks_consistent.
    simpl. intros k row. rewrite lookup_insert. case_decide; [|apply Hinv].
    intros [= <-]. unfold completed_at_consistent. simpl.
    split; [by intros [] | discriminate].
  - by apply Hsame.
  - by apply Hsame.
Qed.

(** ** Deleting a job *)

Lemma JobViewSet_destroy_run request pk db :
  JobViewSet_destroy request pk db =
    match JobViewSet_get_object request pk db with
    | (Ok _, _) => Job_delete pk db
    | (Err e, _) => (Err e, db)
    end.
Proof.
  unfold JobViewSet_destroy.
  rewrite (bind_ok _ _ _ _ _ (JobViewSet_check_permissions_ok request
             "destroy" db ltac:(done))).
  destruct (JobViewSet_get_object_db request pk db) as [[job|e] Hget].
  - by rewrite (bind_ok _ _ _ _ _ Hget), Hget.
  - by rewrite (bind_err _ _ _ _ _ Hget), Hget.
Qed.


(** ** Referential integrity *)

Lemma references_ok_insert (db : DB) (k : positive) (j : Job.t)
    (extra : list JobChangeLog.t) :
  references_ok db →
  (∀ l, l ∈ extra → JobChangeLog.job l = k) →
  references_ok
    (with_job_change_logs (job_change_logs db ++ extra)
       (with_jobs (<[k := j]> (jobs db)) db)).
Proof.
  intros [Ht Hl] Hextra. split; simpl.
  - intros k' t Hk'. apply lookup_insert_is_Some'. right. by eapply Ht.
  - intros l [Hin | Hin]%elem_of_app; apply lookup_insert_is_Some'.
    + right. by apply Hl.
    + left. by rewrite (Hextra l Hin).
Qed.

(** X22: every operation keeps the references of tasks and change-log
    entries to jobs intact: if each task and each log entry names an
    existing job, so it is after [complete], a job update, a task update,
    job creation, deleting a job (which takes its tasks and entries with
    it), the overdue sweep and the log cleanup, and after creating a task
    for an existing job. *)
Theorem references_stay_ok
    (clean_fields : Job.t → DB → list string) (now : datetime)
    (request : Request.t) (pk : positive)
    (jdata : JobPatch.t) (tdata : TaskPatch.t)
    (jattrs : JobCreate.t) (tattrs : TaskCreate.t) (db : DB) :
  references_ok db →
  references_ok (JobViewSet_complete clean_fields now request pk db).2
  ∧ references_ok (JobViewSet_update clean_fields now request pk jdata db).2
  ∧ references_ok (JobTaskViewSet_update now request pk tdata db).2
  ∧ references_ok
      (JobViewSet_perform_create clean_fields now request jattrs db).2
  ∧ references_ok (JobViewSet_destroy request pk db).2
  ∧ references_ok (check_overdue_jobs now db).2
  ∧ references_ok (cleanup_old_logs now db).2
  ∧ (is_Some (jobs db !! TaskCreate.job tattrs) →
     references_ok (JobTaskCreateSerializer_save now tattrs db).2).
Proof.
  intros Hok. pose proof Hok as [Ht Hl].
  split; [|split; [|split; [|split; [|split; [|split; [|split]]]]]].
  - destruct (JobViewSet_complete_cases clean_fields now request pk db)
      as [[e0 ->] | (job & _ & _ & ->)]; [done|]. simpl.
    apply references_ok_insert; [done|].
    intros l Hin. apply list_elem_of_singleton in Hin. by subst.
  - destruct (JobViewSet_update_cases clean_fields now request pk jdata db)
      as [[e0 ->] | (i & l & attrs & _ & _ & Hlog & ->)]; [done|]. simpl.
    apply references_ok_insert; [done|].
    intros x Hin. destruct Hlog as [-> | (? & ->)].
    + by apply elem_of_nil in Hin.
    + apply list_elem_of_singleton in Hin. by subst.
  - destruct (JobTaskViewSet_update_cases now request pk tdata db)
      as [[e0 ->] | (t & l & Hget & Hvalid & Hlog & ->)]; [done|]. simpl.
    assert (Hjob : is_Some (jobs db !! JobTask.job (updated_task now t tdata))).
    { unfold updated_task. simpl.
      assert (Hj : ∀ x, JobTask.job (JobTask_pre_save now x) = JobTask.job x).
      { intros x. unfold JobTask_pre_save. by repeat case_match. }
      rewrite Hj. simpl.
      rewrite JobTaskSerializer_is_valid_run in Hvalid.
      destruct (task_job_ok tdata db) eqn:Hjok; [|done].
      unfold task_job_ok in Hjok.
      destruct (TaskPatch.job tdata) as [k|]; simpl.
      - by apply bool_decide_eq_true in Hjok.
      - destruct (JobTaskViewSet_get_object_inv _ _ _ _ _ Hget) as [_ Hinv].
        destruct (Hinv t eq_refl) as (_ & _ & j & Ho & _).
        unfold JobTaskViewSet.owner, Job_get in Ho.
        by destruct (jobs db !! JobTask.job t). }
    split; simpl.
    + intros k' t'. rewrite lookup_insert. case_decide; [|apply Ht].
      by intros [= <-].
    + intros x [Hin | Hin]%elem_of_app; [by apply Hl|].
      destruct Hlog as [-> | ->]; [by apply elem_of_nil in Hin|].
      apply list_elem_of_singleton in Hin. by subst.
  - pose proof (JobViewSet_perform_create_run clean_fields now request
                  jattrs db) as Hrun. cbv zeta in Hrun. rewrite Hrun.
    destruct (clean_fields _ db); [|done]. simpl.
    apply references_ok_insert; [done|].
    intros l Hin. apply list_elem_of_singleton in Hin. by subst.
  - rewrite JobViewSet_destroy_run.
    destruct (JobViewSet_get_object_db request pk db) as [[job|e] ->];
      [|done].
    unfold Job_delete. split; simpl.
    + intros k t [Hk Hne]%map_lookup_filter_Some. simpl in Hne.
      rewrite lookup_delete_ne by done. by eapply Ht.
    + intros l [Hin Hne]%elem_of_List_filter.
      apply negb_true_iff, bool_decide_eq_false in Hne.
      rewrite lookup_delete_ne by done. by apply Hl.
  - split; simpl.
    + intros k t Hk. rewrite lookup_fmap. apply fmap_is_Some. by eapply Ht.
    + intros l Hin. rewrite lookup_fmap. apply fmap_is_Some. by apply Hl.
  - split; simpl; [done|].
    intros l [Hin _]%elem_of_List_filter. by apply Hl.
  - intros Hjob. rewrite JobTaskCreateSerializer_save_run. split; simpl.
    + intros k t. rewrite lookup_insert. case_decide; [|apply Ht].
      by intros [= <-].
    + done.
Qed.

(** ** The role policy *)


(** * Instances of the further theorems *)

(** X3, instance: erin, a technician without the job, is answered 404 for
    the sample task and dave, a sales agent who did not create the job, 403
    when he patches it; neither update writes anything. *)
Lemma JobTaskViewSet_get_object_by_role_witness :
  JobTaskViewSet_update 300 (Request.plain erin Method.PATCH) 1
    (TaskPatch.only_status TaskStatus.completed) db_pending_task
  = (Err Http404, db_pending_task)
  ∧ JobTaskViewSet_update 300 (Request.plain dave Method.PATCH) 1
      (TaskPatch.only_status TaskStatus.completed) db_pending_task
    = (Err PermissionDenied, db_pending_task).
Proof.
  split.
  - apply (proj2 (JobTaskViewSet_get_object_by_role 300 erin Method.PATCH 1
                    (TaskPatch.only_status TaskStatus.completed)
                    db_pending_task
                    (sample_task 1 TaskStatus.pending 1 None) sample_job
                    eq_refl eq_refl)).
    vm_compute. reflexivity.
  - apply (proj2 (JobTaskViewSet_get_object_by_role 300 dave Method.PATCH 1
                    (TaskPatch.only_status TaskStatus.completed)
                    db_pending_task
                    (sample_task 1 TaskStatus.pending 1 None) sample_job
                    eq_refl eq_refl)).
    vm_compute. reflexivity.
Defined.

(** X6, instance: bob completes the sample job; its row keeps [overdue],
    [created_by] and [created_at]. *)
Lemma job_actions_keep_fields_witness :
  ∃ row',
    jobs (JobViewSet_complete all_fields_ok 200
            (Request.plain bob Method.POST) 1 db_no_task).2 !! 1%positive
    = Some row'
    ∧ Job.overdue row' = false
    ∧ Job.created_by row' = Some 3%positive
    ∧ Job.created_at row' = 100.
Proof.
  pose proof (job_actions_keep_fields all_fields_ok 200
                (Request.plain bob Method.POST) 1 rename_patch db_no_task
                _ _ (or_introl (surjective_pairing _)) 1%positive) as H.
  change (jobs db_no_task !! 1%positive) with (Some sample_job) in H.
  destruct H as (row' & H1 & H2 & H3 & H4 & _).
  exists row'. split; [exact H1|]. split; [exact H2|].
  split; [exact H3 | exact H4].
Defined.


(** X8, instance: once the completed sample job has its task reopened,
    alice cannot even rename it. *)
Lemma completed_job_with_open_task_is_frozen_witness :
  JobViewSet_update Job_clean_fields 400 (Request.plain alice Method.PATCH) 1
    rename_patch db_reopened
  = (Err (BadRequest "status" incomplete_msg), db_reopened).
Proof.
  destruct (proj1 (completed_job_with_open_task_is_frozen Job_clean_fields 400
                     (Request.plain alice Method.PATCH) 1 rename_patch
                     db_reopened
                     (Job.set_updated_at 200
                        (Job.set_status JobStatus.completed sample_job))
                     ltac:(vm_compute; reflexivity) eq_refl
                     ltac:(vm_compute; reflexivity))
              (or_introl eq_refl))
    as [Hrun _].
  apply Hrun.
  refine (proj1 (to_internal_value_inv _ _ _ (trimmed rename_patch) _)).
  vm_compute. reflexivity.
Defined.

(** X9, instance: alice assigns the sample job to bob, an active
    technician. *)
Lemma JobViewSet_update_assigns_technician_witness :
  ∃ job db',
    JobViewSet_update all_fields_ok 200 (Request.plain alice Method.PATCH) 1
      assign_bob_patch db_no_task = (Ok job, db')
    ∧ Job.assigned_to job = Some 2%positive
    ∧ ∃ usr, users db_no_task !! 2%positive = Some usr
             ∧ User.role usr = Role.technician
             ∧ User.is_active usr = true.
Proof.
  eexists _, _. split; [vm_compute; reflexivity|].
  apply (JobViewSet_update_assigns_technician all_fields_ok 200
           (Request.plain alice Method.PATCH) 1 assign_bob_patch db_no_task
           _ _ ltac:(vm_compute; reflexivity)).
Defined.

(** X15, instance: the sample job with its one completed task counts one of
    one and can be completed. *)
Lemma JobSerializer_counts_witness :
  (JobSerializer.get_completed_tasks_count sample_job db_completed_task
   ≤ JobSerializer.get_tasks_count sample_job db_completed_task)%nat
  ∧ can_complete sample_job db_completed_task = true.
Proof.
  destruct (JobSerializer_counts sample_job 1 db_completed_task eq_refl)
    as [Hle Hiff].
  split; [exact Hle|]. apply Hiff. vm_compute. reflexivity.
Defined.

Lemma db_pending_task_consistent : tasks_consistent db_pending_task.
Proof.
  intros k row Hk. unfold db_pending_task in Hk. simpl in Hk.
  apply lookup_singleton_Some in Hk as [_ <-].
  split; [by intros [] | discriminate].
Qed.

(** X20, instance: the sample database stays consistent when bob
    completes its task. *)
Lemma tasks_stay_consistent_witness :
  tasks_consistent
    (JobTaskViewSet_update 300 (Request.plain bob Method.PATCH) 1
       (TaskPatch.only_status TaskStatus.completed) db_pending_task).2.
Proof.
  apply (proj1 (proj2 (proj2
    (tasks_stay_consistent all_fields_ok 300 (Request.plain bob Method.PATCH) 1
       rename_patch (TaskPatch.only_status TaskStatus.completed)
       (JobCreate.mk "t" "d" "c" None None 0)
       (TaskCreate.mk 1 "t" "d" None []) db_pending_task
       db_pending_task_consistent)))).
Defined.

Lemma db_pending_task_references : references_ok db_pending_task.
Proof.
  split.
  - intros k t Hk. unfold db_pending_task in Hk. simpl in Hk.
    apply lookup_singleton_Some in Hk as [_ <-]. by eexists.
  - intros l Hl. by apply elem_of_nil in Hl.
Qed.

(** X22, instance: deleting the sample job as alice leaves no dangling
    task. *)
Lemma references_stay_ok_witness :
  references_ok
    (JobViewSet_destroy (Request.plain alice Method.DELETE) 1 db_pending_task).2.
Proof.
  apply (proj1 (proj2 (proj2 (proj2 (proj2
    (references_stay_ok all_fields_ok 300 (Request.plain alice Method.DELETE) 1
       rename_patch (TaskPatch.only_status TaskStatus.completed)
       (JobCreate.mk "t" "d" "c" None None 0)
       (TaskCreate.mk 1 "t" "d" None []) db_pending_task
       db_pending_task_references)))))).
Defined.

(** X18, instance: a client name with surrounding blanks is stored
    stripped. *)
Lemma validate_client_name_spec_witness :
  JobCreateSerializer.validate_client_name "  ACME Corp  " = Ok "ACME Corp"
  ∧ JobCreateSerializer.validate_client_name "ACME Corp" = Ok "ACME Corp".
Proof.
  assert (H : JobCreateSerializer.validate_client_name "  ACME Corp  "
              = Ok "ACME Corp") by (vm_compute; reflexivity).
  split; [exact H|].
  by destruct (proj2 (validate_client_name_spec "  ACME Corp  ") _ H)
    as (_ & _ & _ & _ & ?).
Defined.

(** X11, instance: of two log entries, one written at time 0 and one
    a hundred days later, a cleanup at that later time deletes the first
    and keeps the second. *)
Lemma cleanup_old_logs_witness :
  ∃ (n : nat) db',
    cleanup_old_logs (100 * 86400) db_two_logs
    = (Ok ("Deleted " +:+ pretty n +:+ " old job change logs"), db')
    ∧ (old_entry ∉ job_change_logs db')
    ∧ recent_entry ∈ job_change_logs db'.
Proof.
  destruct (cleanup_old_logs_spec (100 * 86400) db_two_logs)
    as (n & db' & Hrun & Hmem & _).
  exists n, db'. split; [exact Hrun|]. split.
  - rewrite Hmem. intros [_ Hle]. vm_compute in Hle. by apply Hle.
  - rewrite Hmem. split.
    + unfold db_two_logs. simpl. apply elem_of_cons. right.
      apply elem_of_cons. by left.
    + vm_compute. discriminate.
Defined.

(** X17, instance: a task created for the sample job, which had none,
    blocks its completion. *)
Lemma JobTaskCreateSerializer_save_witness :
  ∃ task db',
    JobTaskCreateSerializer_save 300 (TaskCreate.mk 1 "Step" "Do it" None [])
      db_no_task = (Ok task, db')
    ∧ JobTask.status task = TaskStatus.pending
    ∧ can_complete sample_job db_no_task = true
    ∧ can_complete sample_job db' = false.
Proof.
  destruct (JobTaskCreateSerializer_save_spec all_fields_ok 300 400
              (TaskCreate.mk 1 "Step" "Do it" None []) db_no_task sample_job
              eq_refl)
    as (k & task & db' & Hrun & _ & _ & _ & Hst & _ & _ & _ & _ & _ & Hc & _).
  exists task, db'. split; [exact Hrun|]. split; [exact Hst|].
  split; [reflexivity|exact Hc].
Defined.
